(** * parlai/agents/rag/retrieve_api.py: retrievers over a search engine

    A shallow embedding of the retrieval API of [retrieve_api.py]
    ([RetrieverAPI], [SearchEngineRetrieverMock], [SearchEngineRetriever])
    and the properties its specification states about it.

    Python values are modelled as they are used by the module: a [str] is a
    sequence of Unicode code points, [bytes] a sequence of bytes, a [dict]
    an insertion-ordered association list.  The network ([requests],
    [googlesearch]) and the two HTML libraries ([bs4], [html2text]) are an
    environment of oracles; every call to the network is recorded in a
    trace, and an exception is an outcome of its own, so that "raises",
    "returns" and "was never called" are all statements about the model.
    The calls of [logging] and [print] only write to the log and the
    console; they are left out. *)

From Stdlib Require Import ZArith List Bool Lia.
From Stdlib.Strings Require Import String Ascii Byte.
From Stdlib Require Import DecimalString DecimalZ DecimalPos.
Import ListNotations.
Local Open Scope Z_scope.

(* ===================================================================== *)
(** ** Python strings *)
(* ===================================================================== *)

(** A Python [str]: its code points, in order. *)
Definition pystr : Type := list Z.

(** A string literal of the source. *)
Definition lit (s : string) : pystr :=
  map (fun a => Z.of_N (N_of_ascii a)) (list_ascii_of_string s).

(** The double quote, the line feed and the carriage return. *)
Definition dquote : Z := 34.
Definition LF : Z := 10.
Definition CR : Z := 13.

(** [a == b] on two strings. *)
Fixpoint str_eqb (a b : pystr) : bool :=
  match a, b with
  | [], [] => true
  | x :: a', y :: b' => (x =? y) && str_eqb a' b'
  | _, _ => false
  end.

(** [s.startswith(prefix)]. *)
Fixpoint startswith (s prefix : pystr) : bool :=
  match prefix, s with
  | [], _ => true
  | p :: prefix', c :: s' => (c =? p) && startswith s' prefix'
  | _ :: _, [] => false
  end.

(** [s.split(sep)] for a separator of one character. *)
Fixpoint split (sep : Z) (s : pystr) : list pystr :=
  match s with
  | [] => [[]]
  | c :: s' =>
      if c =? sep then [] :: split sep s'
      else match split sep s' with
           | w :: ws => (c :: w) :: ws
           | [] => [[c]]
           end
  end.

(** [s.replace(c, "")] for a [c] of one character. *)
Definition replace_empty (c : Z) (s : pystr) : pystr :=
  filter (fun x => negb (x =? c)) s.

(** The characters [str.strip()] removes: those for which [str.isspace]
    holds (Unicode White_Space and the four information separators). *)
Definition isspace (c : Z) : bool :=
  ((9 <=? c) && (c <=? 13)) || ((28 <=? c) && (c <=? 32))
  || (c =? 133) || (c =? 160) || (c =? 5760)
  || ((8192 <=? c) && (c <=? 8202))
  || (c =? 8232) || (c =? 8233) || (c =? 8239) || (c =? 8287)
  || (c =? 12288).

Fixpoint lstrip (s : pystr) : pystr :=
  match s with
  | [] => []
  | c :: s' => if isspace c then lstrip s' else s
  end.

Definition rstrip (s : pystr) : pystr := rev (lstrip (rev s)).

(** [s.strip()]. *)
Definition strip (s : pystr) : pystr := rstrip (lstrip s).

(** [str(n)] for an [int]. *)
Definition str_of_int (n : Z) : pystr := lit (NilZero.string_of_int (Z.to_int n)).

(** [len(l)]. *)
Definition len {A : Type} (l : list A) : Z := Z.of_nat (List.length l).

(** [l[:n]]: a negative [n] counts from the end. *)
Definition slice_to {A : Type} (n : Z) (l : list A) : list A :=
  if 0 <=? n then firstn (Z.to_nat n) l
  else firstn (Z.to_nat (len l + n)) l.

(** [range(n)]. *)
Definition range (n : Z) : list Z := map Z.of_nat (seq 0 (Z.to_nat n)).

(* ===================================================================== *)
(** ** Python values, dicts and exceptions *)
(* ===================================================================== *)

(** The values that flow through the module: [None], [bool], [int], [str],
    [list] and [dict] (what a JSON body or an [Opt] entry can hold). *)
#[local] Set Warnings "-register-all".
Inductive pyval : Type :=
| PNone
| PBool (b : bool)
| PInt (n : Z)
| PStr (s : pystr)
| PList (l : list pyval)
| PDict (d : list (pystr * pyval)).

Definition pydict : Type := list (pystr * pyval).

(** Truth value of an object, as [if x:] and [not x] test it. *)
Definition truthy (v : pyval) : bool :=
  match v with
  | PNone => false
  | PBool b => b
  | PInt n => negb (n =? 0)
  | PStr s => match s with [] => false | _ => true end
  | PList l => match l with [] => false | _ => true end
  | PDict d => match d with [] => false | _ => true end
  end.

(** [query == v] for a [str] on the left: only an equal [str] is equal. *)
Definition str_eq_val (q : pystr) (v : pyval) : bool :=
  match v with
  | PStr s => str_eqb q s
  | _ => false
  end.

Fixpoint dict_lookup (d : pydict) (k : pystr) : option pyval :=
  match d with
  | [] => None
  | (k', v) :: d' => if str_eqb k k' then Some v else dict_lookup d' k
  end.

(** [d.get(k, default)]. *)
Definition dict_get (d : pydict) (k : pystr) (default : pyval) : pyval :=
  match dict_lookup d k with
  | Some v => v
  | None => default
  end.

(** [d[k] = v]: an existing key keeps its place, a new one goes last. *)
Fixpoint dict_set (d : pydict) (k : pystr) (v : pyval) : pydict :=
  match d with
  | [] => [(k, v)]
  | (k', v') :: d' =>
      if str_eqb k k' then (k', v) :: d' else (k', v') :: dict_set d' k v
  end.

(** [d.update] with the keyword arguments [kwargs], in their order. *)
Definition dict_update (d kwargs : pydict) : pydict :=
  fold_left (fun acc kv => dict_set acc (fst kv) (snd kv)) kwargs d.

Inductive exn : Type :=
| ValueError (msg : pystr)
| KeyError (key : pystr)
| AttributeError
| TypeError
| UnicodeDecodeError
| ConnectionError
| Timeout
| ProviderError
| JSONDecodeError.

Inductive Outcome (A : Type) : Type :=
| Return (a : A)
| Raise (e : exn).
Arguments Return {A} a.
Arguments Raise {A} e.

(** [CONTENT = 'content'] and [DEFAULT_NUM_TO_RETRIEVE = 5]. *)
Definition CONTENT : pystr := lit "content".
Definition DEFAULT_NUM_TO_RETRIEVE : Z := 5.

(* ===================================================================== *)
(** ** [bytes.decode("utf-8", errors=...)] *)
(* ===================================================================== *)

(** The codec of the Python runtime, which [_get_and_parse] calls on the
    fetched page.  It scans the bytes sequence by sequence; at bytes that
    are no well-formed UTF-8 sequence it hands the offending span to the
    error handler named by [errors]. *)
Inductive errors_mode : Type :=
| Strict    (* raise UnicodeDecodeError *)
| Ignore    (* drop the span *)
| Replace.  (* emit U+FFFD for the span *)

Definition REPLACEMENT_CHARACTER : Z := 65533.

Definition byte_val (b : byte) : Z := Z.of_N (Byte.to_N b).

(** One step of the scan: a code point and the number of bytes it took,
    or the number of bytes of the ill-formed span. *)
Inductive chunk : Type :=
| Char (cp : Z) (n : nat)
| Invalid (n : nat).

Definition is_continuation (c : Z) : bool := (128 <=? c) && (c <? 192).

Definition utf8_decode_one (s : list Z) : chunk :=
  match s with
  | [] => Invalid 1
  | ch :: t1 =>
      if ch <? 128 then Char ch 1
      else if ch <? 224 then
        (* C2..DF 80..BF: U+0080..U+07FF *)
        if ch <? 194 then Invalid 1
        else match t1 with
             | [] => Invalid 1
             | ch2 :: _ =>
                 if negb (is_continuation ch2) then Invalid 1
                 else Char (Z.shiftl ch 6 + ch2 - (Z.shiftl 192 6 + 128)) 2
             end
      else if ch <? 240 then
        (* E0..EF: U+0800..U+FFFF, without the surrogates *)
        match t1 with
        | [] => Invalid 1
        | ch2 :: t2 =>
            if negb (is_continuation ch2)
               || (if ch2 <? 160 then ch =? 224 else ch =? 237)
            then Invalid 1
            else match t2 with
                 | [] => Invalid 2
                 | ch3 :: _ =>
                     if negb (is_continuation ch3) then Invalid 2
                     else Char (Z.shiftl ch 12 + Z.shiftl ch2 6 + ch3
                                - (Z.shiftl 224 12 + Z.shiftl 128 6 + 128)) 3
                 end
        end
      else if ch <? 245 then
        (* F0..F4: U+10000..U+10FFFF *)
        match t1 with
        | [] => Invalid 1
        | ch2 :: t2 =>
            if negb (is_continuation ch2)
               || (if ch2 <? 144 then ch =? 240 else ch =? 244)
            then Invalid 1
            else match t2 with
                 | [] => Invalid 2
                 | ch3 :: t3 =>
                     if negb (is_continuation ch3) then Invalid 2
                     else match t3 with
                          | [] => Invalid 3
                          | ch4 :: _ =>
                              if negb (is_continuation ch4) then Invalid 3
                              else Char (Z.shiftl ch 18 + Z.shiftl ch2 12
                                         + Z.shiftl ch3 6 + ch4
                                         - (Z.shiftl 240 18 + Z.shiftl 128 12
                                            + Z.shiftl 128 6 + 128)) 4
                          end
                 end
        end
      else Invalid 1
  end.

(** The scan.  [pending] counts the bytes of the current span that are
    still to be passed over: the read position moves by the length of
    each span, and a new span starts where the last one ended. *)
Fixpoint decode_from (errors : errors_mode) (pending : nat) (s : list Z)
  : Outcome pystr :=
  match s with
  | [] => Return []
  | _ :: t =>
      match pending with
      | S k => decode_from errors k t
      | O =>
          let emit (prefix : pystr) (r : Outcome pystr) :=
            match r with
            | Return out => Return (prefix ++ out)
            | Raise e => Raise e
            end in
          match utf8_decode_one s with
          | Char cp n => emit [cp] (decode_from errors (pred n) t)
          | Invalid n =>
              match errors with
              | Strict => Raise UnicodeDecodeError
              | Ignore => decode_from errors (pred n) t
              | Replace =>
                  emit [REPLACEMENT_CHARACTER] (decode_from errors (pred n) t)
              end
          end
      end
  end.

(** [b.decode("utf-8", errors=errors)]. *)
Definition bytes_decode (errors : errors_mode) (b : list byte) : Outcome pystr :=
  decode_from errors 0 (map byte_val b).

(* ===================================================================== *)
(** ** The outside world, and the monad of a method call *)
(* ===================================================================== *)

(** A call that leaves the process. *)
Inductive Event : Type :=
| EvSearch (query : pystr) (num stop : Z)       (* googlesearch.search *)
| EvGet (url : pystr)                           (* requests.get *)
| EvPost (server query : pystr) (n : Z).        (* requests.post *)

(** The generator [googlesearch.search] returns: it yields URLs one at a
    time, and ends by exhaustion or by an exception of the provider. *)
Inductive Gen : Type :=
| GStop
| GRaise (e : exn)
| GYield (url : pystr) (rest : Gen).

(** What the module reads of a [requests] response. *)
Record Response : Type := {
  status_code : Z;
  content : list byte;
  json : Outcome pyval
}.

(** The collaborators of the module.  An answer of the network may depend
    on everything that was sent before (the trace at the time of the
    call), so the same URL can be reachable once and unreachable next. *)
Record Env : Type := {
  googlesearch_search : list Event -> pystr -> Z -> Z -> Gen;
  requests_get : list Event -> pystr -> Outcome Response;
  requests_post : list Event -> pystr -> pystr -> Z -> Outcome Response;
  (* soup.find("title"), rendered and decoded; None when there is no title *)
  bs4_find_title : list byte -> option pystr;
  (* html2text.HTML2Text().handle with the module's five settings *)
  html2text_handle : pystr -> pystr
}.

(** The fields of a [SearchEngineRetriever] ([skip_query_token] comes from
    [RetrieverAPI]). *)
Record Retriever : Type := {
  skip_query_token : pyval;
  server_address : pystr;
  use_local : bool
}.

(** What a method call can change: the object and the world. *)
Record State : Type := {
  self : Retriever;
  trace : list Event
}.

Definition M (A : Type) : Type := State -> Outcome A * State.

Definition ret {A : Type} (a : A) : M A := fun st => (Return a, st).

Definition raise {A : Type} (e : exn) : M A := fun st => (Raise e, st).

Definition bind {A B : Type} (c : M A) (k : A -> M B) : M B :=
  fun st =>
    match c st with
    | (Return a, st') => k a st'
    | (Raise e, st') => (Raise e, st')
    end.

(** [try: c / except Exception: handler / else: k]. *)
Definition try_except_else {A B : Type}
  (c : M A) (handler : exn -> M B) (k : A -> M B) : M B :=
  fun st =>
    match c st with
    | (Return a, st') => k a st'
    | (Raise e, st') => handler e st'
    end.

Definition lift {A : Type} (o : Outcome A) : M A := fun st => (o, st).

Definition gets {A : Type} (f : Retriever -> A) : M A :=
  fun st => (Return (f (self st)), st).

Definition record (ev : Event) : M unit :=
  fun st => (Return tt, {| self := self st; trace := trace st ++ [ev] |}).

Definition history : M (list Event) := fun st => (Return (trace st), st).

Declare Scope py_scope.
Delimit Scope py_scope with py.
Notation "x <- c ;; k" := (bind c (fun x => k))
  (at level 100, c at next level, right associativity) : py_scope.
Notation "c ;; k" := (bind c (fun _ => k))
  (at level 100, right associativity) : py_scope.

(** The configuration a retriever is built from, with the two keys the
    module reads: each field is [None] when the key is absent.
    [opt['skip_retrieval_token']] raises on an absent key, where
    [opt.get('search_server')] gives [None]. *)
Record Opt : Type := {
  skip_retrieval_token : option pyval;
  search_server : option pystr
}.

(* ===================================================================== *)
(** ** class RetrieverAPI *)
(* ===================================================================== *)

Module RetrieverAPI.

(** [__init__(self, opt)]: [self.skip_query_token = opt['skip_retrieval_token']]. *)
Definition __init__ (opt : Opt) : M unit :=
  match skip_retrieval_token opt with
  | None => raise (KeyError (lit "skip_retrieval_token"))
  | Some token =>
      fun st =>
        (Return tt,
         {| self := {| skip_query_token := token;
                       server_address := server_address (self st);
                       use_local := use_local (self st) |};
            trace := trace st |})
  end.

(** [create_content_dict(self, content, **kwargs)], the keyword arguments
    in the order of the call. *)
Definition create_content_dict (content : pyval) (kwargs : pydict) : pydict :=
  let resp_content := [(CONTENT, content)] in
  dict_update resp_content kwargs.

End RetrieverAPI.

(* ===================================================================== *)
(** ** class SearchEngineRetrieverMock *)
(* ===================================================================== *)

Module SearchEngineRetrieverMock.
Import RetrieverAPI.

(** The body of [for idx in range(num_ret)]. *)
Definition mock_doc (query : pystr) (idx : Z) : pyval :=
  PDict (create_content_dict
           (PStr (lit "content " ++ str_of_int idx ++ lit " for query "
                  ++ [dquote] ++ query ++ [dquote]))
           [(lit "url", PStr (lit "url_" ++ str_of_int idx));
            (lit "title", PStr (lit "title_" ++ str_of_int idx))]).

(** The body of [for query in queries]: the value appended to [all_docs]. *)
Definition mock_docs (skip_query_token : pyval) (query : pystr) (num_ret : Z)
  : pyval :=
  if str_eq_val query skip_query_token then PNone
  else PList (map (mock_doc query) (range num_ret)).

Definition retrieve (skip_query_token : pyval) (queries : list pystr)
  (num_ret : Z) : list pyval :=
  map (fun query => mock_docs skip_query_token query num_ret) queries.

End SearchEngineRetrieverMock.

(* ===================================================================== *)
(** ** class SearchEngineRetriever *)
(* ===================================================================== *)

Module SearchEngineRetriever.
Import RetrieverAPI.
Local Open Scope py_scope.

Definition set_use_local (b : bool) : M unit :=
  fun st =>
    (Return tt,
     {| self := {| skip_query_token := skip_query_token (self st);
                   server_address := server_address (self st);
                   use_local := b |};
        trace := trace st |}).

Definition set_server_address (a : pystr) : M unit :=
  fun st =>
    (Return tt,
     {| self := {| skip_query_token := skip_query_token (self st);
                   server_address := a;
                   use_local := use_local (self st) |};
        trace := trace st |}).

Definition VALUE_ERROR_MESSAGE : pystr :=
  lit "Must provide a valid server for search".

(** [_validate_server(self, address)]. *)
Definition _validate_server (address : option pystr) : M pystr :=
  match address with
  | None => raise (ValueError VALUE_ERROR_MESSAGE)
  | Some address =>
      if negb (truthy (PStr address)) then
        raise (ValueError VALUE_ERROR_MESSAGE)
      else if startswith address (lit "local_google") then
        set_use_local true ;;
        ret address
      else if startswith address (lit "http://")
              || startswith address (lit "https://") then
        ret address
      else
        let PROTOCOL := lit "http://" in
        ret (PROTOCOL ++ address)
  end.

(** [__init__(self, opt)], run on the object under construction. *)
Definition __init__ (opt : Opt) : M unit :=
  RetrieverAPI.__init__ opt ;;
  address <- _validate_server (search_server opt) ;;
  set_server_address address ;;
  set_use_local true ;;
  server_address <- gets server_address ;;
  if startswith server_address (lit "local_google") then set_use_local true
  else ret tt.

(** [SearchEngineRetriever(opt)]: the new object, or the exception of its
    constructor.  The object starts with no attribute; no field is read
    before [__init__] has assigned it, so what stands for the unset fields
    is never seen. *)
Definition new (opt : Opt) : Outcome Retriever :=
  let fresh := {| skip_query_token := PNone;
                  server_address := [];
                  use_local := false |} in
  match __init__ opt {| self := fresh; trace := [] |} with
  | (Return _, st) => Return (self st)
  | (Raise e, _) => Raise e
  end.

Section WithEnv.

Variable env : Env.

(** [requests.get(url)]. *)
Definition get (url : pystr) : M Response :=
  past <- history ;;
  record (EvGet url) ;;
  lift (requests_get env past url).

(** [requests.post(server, data={'q': query_term, 'n': n})]. *)
Definition post (server query_term : pystr) (n : Z) : M Response :=
  past <- history ;;
  record (EvPost server query_term n) ;;
  lift (requests_post env past server query_term n).

(** [googlesearch.search(query_term, num=num, stop=stop)].  The
    generator it returns is always advanced by the [for] loop that
    follows, so the provider is asked as soon as the call is made. *)
Definition search (query_term : pystr) (num stop : Z) : M Gen :=
  past <- history ;;
  record (EvSearch query_term num stop) ;;
  ret (googlesearch_search env past query_term num stop).

(** [_query_search_server(self, query_term, n)]. *)
Definition _query_search_server (query_term : pystr) (n : Z) : M pyval :=
  server <- gets server_address ;;
  server_response <- post server query_term n ;;
  let resp_status := status_code server_response in
  if resp_status =? 200 then
    body <- lift (json server_response) ;;
    match body with
    | PDict d => ret (dict_get d (lit "response") PNone)
    | _ => raise AttributeError
    end
  else ret PNone.

(** [page.decode("utf-8", errors="ignore")]. *)
Definition decode_page (page : list byte) : Outcome pystr :=
  bytes_decode Ignore page.

(** [_get_and_parse(self, url)]. *)
Definition _get_and_parse (url : pystr) : M pyval :=
  resp <- get url ;;
  try_except_else (get url)
    (fun e => ret PNone)
    (fun resp =>
       let page := content resp in
       let title :=
         match bs4_find_title env page with
         | Some rendered => rendered
         | None => lit "None"
         end in
       let title := replace_empty CR (replace_empty LF title) in
       decoded <- lift (decode_page page) ;;
       let text := html2text_handle env decoded in
       let output_dict :=
         [(lit "title", PStr title);
          (lit "content", PStr text);
          (lit "url", PStr url)] in
       ret (PDict output_dict)).

(** The loop [for url in urls] of [_query_local_search_server]. *)
Fixpoint for_url_in (n : Z) (urls : Gen) (content : list pyval)
  : M (list pyval) :=
  match urls with
  | GStop => ret content
  | GRaise e => raise e
  | GYield url rest =>
      if len content >=? n then ret content
      else
        maybe_content <- _get_and_parse url ;;
        if truthy maybe_content then
          for_url_in n rest (content ++ [maybe_content])
        else for_url_in n rest content
  end.

(** [_query_local_search_server(self, query_term, n)]. *)
Definition _query_local_search_server (query_term : pystr) (n : Z) : M pyval :=
  urls <- search query_term n n ;;
  content <- for_url_in n urls [] ;;
  let content := slice_to n content in
  let output := [(lit "response", PList content)] in
  ret (dict_get output (lit "response") PNone).

(** What [for rd in search_server_resp] iterates over. *)
Definition iter (v : pyval) : Outcome (list pyval) :=
  match v with
  | PList l => Return l
  | PDict d => Return (map (fun kv => PStr (fst kv)) d)
  | PStr s => Return (map (fun c => PStr [c]) s)
  | PNone | PBool _ | PInt _ => Raise TypeError
  end.

(** [[s.strip() for s in text.split('\n') if s and s.strip()]]. *)
Definition sentences_of (text : pystr) : list pystr :=
  map strip
    (filter (fun s => truthy (PStr s) && truthy (PStr (strip s)))
            (split LF text)).

(** The body of [for rd in search_server_resp]: the document appended to
    [retrieved_docs]. *)
Definition document_of (rd : pyval) : Outcome pyval :=
  match rd with
  | PDict d =>
      let url := dict_get d (lit "url") (PStr []) in
      let title := dict_get d (lit "title") (PStr []) in
      match dict_lookup d CONTENT with
      | None => Raise (KeyError CONTENT)
      | Some (PStr text) =>
          let sentences := map PStr (sentences_of text) in
          Return (PDict (create_content_dict (PList sentences)
                           [(lit "url", url); (lit "title", title)]))
      | Some _ => Raise AttributeError
      end
  | _ => Raise AttributeError
  end.

Fixpoint for_rd_in (items : list pyval) (retrieved_docs : list pyval)
  : Outcome (list pyval) :=
  match items with
  | [] => Return retrieved_docs
  | rd :: rest =>
      match document_of rd with
      | Return doc => for_rd_in rest (retrieved_docs ++ [doc])
      | Raise e => Raise e
      end
  end.

(** [_retrieve_single] from the point where [search_server_resp] is known. *)
Definition assemble (search_server_resp : pyval) (retrieved_docs : list pyval)
  : Outcome pyval :=
  if negb (truthy search_server_resp) then Return (PList retrieved_docs)
  else
    match iter search_server_resp with
    | Raise e => Raise e
    | Return items =>
        match for_rd_in items retrieved_docs with
        | Return docs => Return (PList docs)
        | Raise e => Raise e
        end
    end.

(** [_retrieve_single(self, search_query, num_ret)]. *)
Definition _retrieve_single (search_query : pystr) (num_ret : Z) : M pyval :=
  token <- gets skip_query_token ;;
  if str_eq_val search_query token then ret PNone
  else
    let retrieved_docs := [] in
    set_use_local true ;;
    local <- gets use_local ;;
    search_server_resp <-
      (if local then _query_local_search_server search_query num_ret
       else _query_search_server search_query num_ret) ;;
    lift (assemble search_server_resp retrieved_docs).

(** [retrieve(self, queries, num_ret)]:
    [[self._retrieve_single(q, num_ret) for q in queries]]. *)
Fixpoint retrieve (queries : list pystr) (num_ret : Z) : M (list pyval) :=
  match queries with
  | [] => ret []
  | q :: queries' =>
      docs <- _retrieve_single q num_ret ;;
      rest <- retrieve queries' num_ret ;;
      ret (docs :: rest)
  end.

End WithEnv.

End SearchEngineRetriever.

(* ===================================================================== *)
(** ** Notions the properties are stated with *)
(* ===================================================================== *)

(** [without_replacements s r]: [s] is [r] with some occurrences of U+FFFD
    taken out, and nothing else changed. *)
Inductive without_replacements : pystr -> pystr -> Prop :=
| wr_nil : without_replacements [] []
| wr_keep c s r :
    without_replacements s r -> without_replacements (c :: s) (c :: r)
| wr_drop s r :
    without_replacements s r ->
    without_replacements s (REPLACEMENT_CHARACTER :: r).

(** [subseq s l]: [s] is [l] with some of its elements deleted. *)
Inductive subseq {A : Type} : list A -> list A -> Prop :=
| subseq_nil : subseq [] []
| subseq_keep x s l : subseq s l -> subseq (x :: s) (x :: l)
| subseq_drop x s l : subseq s l -> subseq s (x :: l).

(** The bytes of a page that belong to a well-formed UTF-8 sequence, in
    their order: the scan of the codec, which keeps the sequences that
    decode and deletes the ill-formed spans.  [pending] counts the bytes
    of the current span still to come, [keep] tells whether that span is
    kept. *)
Fixpoint keep_well_formed (pending : nat) (keep : bool) (b : list byte)
  : list byte :=
  match b with
  | [] => []
  | c :: t =>
      match pending with
      | S k => (if keep then [c] else []) ++ keep_well_formed k keep t
      | O =>
          match utf8_decode_one (map byte_val b) with
          | Char _ n => c :: keep_well_formed (pred n) true t
          | Invalid n => keep_well_formed (pred n) false t
          end
      end
  end.

Definition well_formed_bytes (page : list byte) : list byte :=
  keep_well_formed 0 true page.

(** A string with no whitespace at either end. *)
Definition trimmed (s : pystr) : Prop :=
  (forall c, hd_error s = Some c -> isspace c = false)
  /\ (forall c, hd_error (rev s) = Some c -> isspace c = false).

(** The URLs a generator yields before it stops or raises. *)
Fixpoint gen_urls (g : Gen) : list pystr :=
  match g with
  | GYield url rest => url :: gen_urls rest
  | GStop | GRaise _ => []
  end.

(** The generator after [k] of its URLs were taken. *)
Fixpoint gen_skip (k : nat) (g : Gen) : Gen :=
  match k, g with
  | S k', GYield _ rest => gen_skip k' rest
  | _, _ => g
  end.

Definition is_post (ev : Event) : bool :=
  match ev with EvPost _ _ _ => true | _ => false end.

(** The object after [self.use_local = b]. *)
Definition with_use_local (b : bool) (st : State) : State :=
  {| self := {| skip_query_token := skip_query_token (self st);
                server_address := server_address (self st);
                use_local := b |};
     trace := trace st |}.

(** [c] takes every state to one related to it by [R], whatever its
    outcome. *)
Definition keeps (R : State -> State -> Prop) {A : Type} (c : M A) : Prop :=
  forall st, R st (snd (c st)).

(** The frame of the local search path: the token and the address stay,
    and what is added to the trace is no [requests.post]. *)
Definition frame (st st' : State) : Prop :=
  skip_query_token (self st') = skip_query_token (self st)
  /\ server_address (self st') = server_address (self st)
  /\ exists evs, trace st' = trace st ++ evs
                 /\ Forall (fun ev => is_post ev = false) evs.

(** What [_get_and_parse url] can return: [None], or the record of the
    page with its three keys. *)
Definition fetch_result (url : pystr) (r : pyval) : Prop :=
  r = PNone
  \/ exists title text,
       r = PDict [(lit "title", PStr title);
                  (lit "content", PStr text);
                  (lit "url", PStr url)].

(** [fetches env st fetched st']: calling [_get_and_parse] on the URLs of
    [fetched], one after the other from the state [st], returns the
    results paired with them and ends in the state [st']. *)
Inductive fetches (env : Env) : State -> list (pystr * pyval) -> State -> Prop :=
| fetches_nil st : fetches env st [] st
| fetches_cons st url r st1 rest st2 :
    SearchEngineRetriever._get_and_parse env url st = (Return r, st1) ->
    fetches env st1 rest st2 ->
    fetches env st ((url, r) :: rest) st2.

(** The calls of the network for a list of fetched URLs: two
    [requests.get] each. *)
Definition gets_of (fetched : list (pystr * pyval)) : list Event :=
  flat_map (fun p => [EvGet (fst p); EvGet (fst p)]) fetched.

(** The documents among a list of fetch results. *)
Definition successes (fetched : list (pystr * pyval)) : list pyval :=
  filter truthy (map snd fetched).

(** A document whose [content] is a list of strings, each non-empty and
    with no whitespace at its ends. *)
Definition well_formed_document (doc : pyval) : Prop :=
  exists d sentences,
    doc = PDict d
    /\ dict_lookup d CONTENT = Some (PList (map PStr sentences))
    /\ Forall (fun s => s <> [] /\ trimmed s) sentences.

(** A Unicode scalar value: a code point that is no surrogate. *)
Definition is_scalar (cp : Z) : Prop :=
  0 <= cp <= 1114111 /\ ~ (55296 <= cp <= 57343).

(** The value of a document or of a page record under the key [k]. *)
Definition doc_field (k : pystr) (doc : pyval) : option pyval :=
  match doc with
  | PDict d => dict_lookup d k
  | _ => None
  end.

(** [rd.get(k, '')] for an item [rd] of a search response. *)
Definition item_field (k : pystr) (rd : pyval) : option pyval :=
  match rd with
  | PDict d => Some (dict_get d k (PStr []))
  | _ => None
  end.

Definition is_search (ev : Event) : bool :=
  match ev with EvSearch _ _ _ => true | _ => false end.



(* ===================================================================== *)
(** ** class LocalSearchTest *)
(* ===================================================================== *)

Module LocalSearchTest.
Import SearchEngineRetriever.
Local Open Scope py_scope.




End LocalSearchTest.

(* ===================================================================== *)
(** ** Sample worlds *)
(* ===================================================================== *)

Module Samples.

Definition page (s : string) : Response :=
  {| status_code := 200;
     content := list_byte_of_string s;
     json := Raise JSONDecodeError |}.

Definition yields (urls : list pystr) : Gen := fold_right GYield GStop urls.

Definition five : list pystr :=
  [lit "u1"; lit "u2"; lit "u3"; lit "u4"; lit "u5"].

(** Was the last call a [requests.get] of [url]? *)
Definition just_got (past : list Event) (url : pystr) : bool :=
  match rev past with
  | EvGet u :: _ => str_eqb u url
  | _ => false
  end.

(** Every page is there. *)
Definition env_up : Env :=
  {| googlesearch_search := fun _ _ _ _ => yields five;
     requests_get := fun _ _ => Return (page "  hello
 
world  ");
     requests_post := fun _ _ _ _ => Raise ConnectionError;
     bs4_find_title := fun _ => Some (lit "T");
     html2text_handle := fun s => s |}.

(** [u1] cannot be reached, the other pages can. *)
Definition env_u1_down : Env :=
  {| googlesearch_search := fun _ _ _ _ => yields five;
     requests_get := fun _ url =>
       if str_eqb url (lit "u1") then Raise ConnectionError
       else Return (page "hello");
     requests_post := fun _ _ _ _ => Raise ConnectionError;
     bs4_find_title := fun _ => None;
     html2text_handle := fun s => s |}.

(** [u2] and [u4] answer once and time out when asked again. *)
Definition env_flaky : Env :=
  {| googlesearch_search := fun _ _ _ _ => yields five;
     requests_get := fun past url =>
       if (str_eqb url (lit "u2") || str_eqb url (lit "u4"))
          && just_got past url
       then Raise Timeout
       else Return (page "hello");
     requests_post := fun _ _ _ _ => Raise ConnectionError;
     bs4_find_title := fun _ => None;
     html2text_handle := fun s => s |}.

(** [u2] and [u4] cannot be reached, the three other pages can. *)
Definition env_two_down : Env :=
  {| googlesearch_search := fun _ _ _ _ => yields five;
     requests_get := fun _ url =>
       if str_eqb url (lit "u2") || str_eqb url (lit "u4")
       then Raise ConnectionError
       else Return (page "hello");
     requests_post := fun _ _ _ _ => Raise ConnectionError;
     bs4_find_title := fun _ => None;
     html2text_handle := fun s => s |}.

(** The provider is down. *)
Definition env_no_provider : Env :=
  {| googlesearch_search := fun _ _ _ _ => GRaise ProviderError;
     requests_get := fun _ _ => Raise ConnectionError;
     requests_post := fun _ _ _ _ => Raise ConnectionError;
     bs4_find_title := fun _ => None;
     html2text_handle := fun s => s |}.

(** A retriever configured with a remote server and the token ["skip"]. *)
Definition opt_remote : Opt :=
  {| skip_retrieval_token := Some (PStr (lit "skip"));
     search_server := Some (lit "http://example.com/search") |}.

Definition remote_retriever : Retriever :=
  {| skip_query_token := PStr (lit "skip");
     server_address := lit "http://example.com/search";
     use_local := true |}.

Definition st0 : State := {| self := remote_retriever; trace := [] |}.

End Samples.

Import SearchEngineRetriever.

(* ===================================================================== *)
(** ** Strings *)
(* ===================================================================== *)

Lemma str_eqb_refl (a : pystr) : str_eqb a a = true.
Proof.
  induction a as [|x a IH]; simpl; [reflexivity|].
  now rewrite Z.eqb_refl, IH.
Qed.


Lemma startswith_nonempty (s : pystr) (c : Z) (prefix : pystr) :
  startswith s (c :: prefix) = true -> s <> [].
Proof. destruct s; simpl; [discriminate|intros _; discriminate]. Qed.

Lemma truthy_str (s : pystr) : truthy (PStr s) = false <-> s = [].
Proof. destruct s; simpl; split; intros H; try reflexivity; discriminate. Qed.

(** [lstrip] cuts a prefix off. *)
Lemma lstrip_suffix (s : pystr) : exists p, s = p ++ lstrip s.
Proof.
  induction s as [|c s [p Hp]]; simpl.
  - now exists [].
  - destruct (isspace c).
    + exists (c :: p). simpl. now f_equal.
    + now exists [].
Qed.

Lemma lstrip_head (s : pystr) (c : Z) :
  hd_error (lstrip s) = Some c -> isspace c = false.
Proof.
  induction s as [|x s IH]; simpl; [discriminate|].
  destruct (isspace x) eqn:Hx; [exact IH|].
  simpl. intros [= <-]. exact Hx.
Qed.

(** [rstrip] cuts a suffix off. *)
Lemma rstrip_prefix (s : pystr) : exists q, s = rstrip s ++ q.
Proof.
  unfold rstrip. destruct (lstrip_suffix (rev s)) as [p Hp].
  exists (rev p). rewrite <- rev_app_distr, <- Hp. symmetry. apply rev_involutive.
Qed.

Lemma strip_trimmed (s : pystr) : trimmed (strip s).
Proof.
  unfold trimmed, strip. split; intros c Hc.
  - destruct (rstrip_prefix (lstrip s)) as [q Hq].
    apply (lstrip_head s). rewrite Hq.
    destruct (rstrip (lstrip s)); [discriminate|exact Hc].
  - unfold rstrip in Hc. rewrite rev_involutive in Hc.
    now apply lstrip_head in Hc.
Qed.

(* ===================================================================== *)
(** ** The codec *)
(* ===================================================================== *)

Lemma decode_from_pending (errors : errors_mode) (k : nat) (c : Z) (t : list Z) :
  decode_from errors (S k) (c :: t) = decode_from errors k t.
Proof. reflexivity. Qed.

Lemma decode_from_start (errors : errors_mode) (c : Z) (t : list Z) :
  decode_from errors 0 (c :: t) =
  match utf8_decode_one (c :: t) with
  | Char cp n =>
      match decode_from errors (pred n) t with
      | Return out => Return ([cp] ++ out)
      | Raise e => Raise e
      end
  | Invalid n =>
      match errors with
      | Strict => Raise UnicodeDecodeError
      | Ignore => decode_from errors (pred n) t
      | Replace =>
          match decode_from errors (pred n) t with
          | Return out => Return ([REPLACEMENT_CHARACTER] ++ out)
          | Raise e => Raise e
          end
      end
  end.
Proof. reflexivity. Qed.

(** With [errors="ignore"] and with [errors="replace"] the scan runs to the
    end, and the two results differ by the replacement characters only. *)
Lemma decode_from_ignore_replace (s : list Z) :
  forall pending, exists a b,
    decode_from Ignore pending s = Return a
    /\ decode_from Replace pending s = Return b
    /\ without_replacements a b.
Proof.
  induction s as [|c t IH]; intros pending.
  - exists [], []. repeat split; constructor.
  - destruct pending as [|k].
    + rewrite !decode_from_start.
      destruct (utf8_decode_one (c :: t)) as [cp n|n];
        destruct (IH (pred n)) as (a & b & Ha & Hb & Hab);
        rewrite Ha, Hb.
      * exists (cp :: a), (cp :: b). repeat split. now constructor.
      * exists a, (REPLACEMENT_CHARACTER :: b). repeat split. now constructor.
    + rewrite !decode_from_pending. apply IH.
Qed.

(** Where the strict codec succeeds, [errors="ignore"] changes nothing. *)
Lemma decode_from_strict_ignore (s : list Z) :
  forall pending out,
    decode_from Strict pending s = Return out ->
    decode_from Ignore pending s = Return out.
Proof.
  induction s as [|c t IH]; intros pending out.
  - simpl. auto.
  - destruct pending as [|k].
    + rewrite !decode_from_start.
      destruct (utf8_decode_one (c :: t)) as [cp n|n]; [|discriminate].
      destruct (decode_from Strict (pred n) t) as [r|e] eqn:Hs; [|discriminate].
      intros [= <-]. now rewrite (IH _ _ Hs).
    + rewrite !decode_from_pending. apply IH.
Qed.

Lemma bytes_decode_ignore_total (b : list byte) :
  exists out, bytes_decode Ignore b = Return out.
Proof.
  destruct (decode_from_ignore_replace (map byte_val b) 0) as (a & _ & Ha & _).
  now exists a.
Qed.

(* ===================================================================== *)
(** ** Decoding the page (C9) *)
(* ===================================================================== *)

(** C9 as stated fails: the page [b"A\xffB"] decodes to ["AB"], the
    undecodable byte is dropped, where replacing it would give
    ["A\ufffdB"]. *)
Lemma C9_undecodable_not_replaced :
  decode_page [x41; xff; x42] = Return [65; 66]
  /\ bytes_decode Replace [x41; xff; x42] = Return [65; REPLACEMENT_CHARACTER; 66]
  /\ decode_page [x41; xff; x42] <> bytes_decode Replace [x41; xff; x42].
Proof. repeat split. discriminate. Qed.

Ltac char_inv :=
  match goal with
  | |- Char ?e ?k = Char ?cp ?n -> _ =>
      let Heq := fresh in
      intros Heq;
      assert (cp = e) as -> by congruence;
      assert (n = k) as -> by congruence;
      clear Heq
  end.

(** A sequence that decodes is decided by its own bytes: what follows it
    does not matter. *)
Lemma utf8_decode_one_prefix (c : Z) (t : list Z) (cp : Z) (n : nat) :
  utf8_decode_one (c :: t) = Char cp n ->
  forall t',
    firstn (pred n) t' = firstn (pred n) t ->
    utf8_decode_one (c :: t') = Char cp n.
Proof.
  unfold utf8_decode_one.
  destruct (c <? 128) eqn:E1; [char_inv; reflexivity|].
  destruct (c <? 224) eqn:E2.
  { destruct (c <? 194) eqn:E3; [discriminate|].
    destruct t as [|ch2 t2]; [discriminate|].
    destruct (negb (is_continuation ch2)) eqn:E4; [discriminate|].
    char_inv. intros [|x t'] Hpre; simpl in Hpre; [discriminate|].
    injection Hpre as ->. now rewrite E4. }
  destruct (c <? 240) eqn:E3.
  { destruct t as [|ch2 [|ch3 t3]]; try discriminate.
    - destruct (negb (is_continuation ch2)
                || (if ch2 <? 160 then c =? 224 else c =? 237));
        discriminate.
    - destruct (negb (is_continuation ch2)
                || (if ch2 <? 160 then c =? 224 else c =? 237)) eqn:E4;
        [discriminate|].
      destruct (negb (is_continuation ch3)) eqn:E5; [discriminate|].
      char_inv. intros [|x [|y t']] Hpre; simpl in Hpre; try discriminate.
      injection Hpre as -> ->. now rewrite E4, E5. }
  destruct (c <? 245) eqn:E4; [|discriminate].
  destruct t as [|ch2 [|ch3 [|ch4 t4]]]; try discriminate.
  - destruct (negb (is_continuation ch2)
              || (if ch2 <? 144 then c =? 240 else c =? 244));
      discriminate.
  - destruct (negb (is_continuation ch2)
              || (if ch2 <? 144 then c =? 240 else c =? 244));
      [discriminate|].
    destruct (negb (is_continuation ch3)); discriminate.
  - destruct (negb (is_continuation ch2)
              || (if ch2 <? 144 then c =? 240 else c =? 244)) eqn:E5;
      [discriminate|].
    destruct (negb (is_continuation ch3)) eqn:E6; [discriminate|].
    destruct (negb (is_continuation ch4)) eqn:E7; [discriminate|].
    char_inv. intros [|x [|y [|z t']]] Hpre; simpl in Hpre; try discriminate.
    injection Hpre as -> -> ->. now rewrite E5, E6, E7.
Qed.

Lemma keep_well_formed_start (keep : bool) (c : byte) (t : list byte) :
  keep_well_formed 0 keep (c :: t)
  = match utf8_decode_one (byte_val c :: map byte_val t) with
    | Char _ n => c :: keep_well_formed (pred n) true t
    | Invalid n => keep_well_formed (pred n) false t
    end.
Proof. reflexivity. Qed.

Lemma keep_well_formed_pending (k : nat) (keep : bool) (c : byte)
  (t : list byte) :
  keep_well_formed (S k) keep (c :: t)
  = (if keep then [c] else []) ++ keep_well_formed k keep t.
Proof. reflexivity. Qed.

Lemma keep_well_formed_firstn (k : nat) (b : list byte) :
  firstn k (keep_well_formed k true b) = firstn k b.
Proof.
  revert b. induction k as [|k IH]; intros [|c t]; simpl; try reflexivity.
  now rewrite IH.
Qed.

Lemma keep_well_formed_subseq (b : list byte) :
  forall pending keep, subseq (keep_well_formed pending keep b) b.
Proof.
  induction b as [|c t IH]; intros pending keep; [constructor|].
  destruct pending as [|k].
  - rewrite keep_well_formed_start.
    destruct (utf8_decode_one (byte_val c :: map byte_val t)) as [cp n|n];
      constructor; apply IH.
  - rewrite keep_well_formed_pending.
    destruct keep; cbn [app]; constructor; apply IH.
Qed.

(** Dropping the ill-formed spans while decoding is decoding strictly what
    is left when they are deleted. *)
Lemma decode_from_ignore_kept (b : list byte) :
  forall pending,
    decode_from Ignore pending (map byte_val b)
    = decode_from Strict pending
        (map byte_val (keep_well_formed pending true b))
    /\ decode_from Ignore pending (map byte_val b)
       = decode_from Strict 0
           (map byte_val (keep_well_formed pending false b)).
Proof.
  induction b as [|c t IH]; intros pending.
  - destruct pending; split; reflexivity.
  - destruct pending as [|k].
    + assert (Hstart :
        decode_from Ignore 0 (map byte_val (c :: t))
        = decode_from Strict 0
            (map byte_val (keep_well_formed 0 true (c :: t)))).
      { rewrite keep_well_formed_start. cbn [map].
        rewrite decode_from_start.
        destruct (utf8_decode_one (byte_val c :: map byte_val t))
          as [cp n|n] eqn:Hone.
        - cbn [map]. rewrite decode_from_start.
          rewrite (utf8_decode_one_prefix _ _ _ _ Hone).
          + now rewrite (proj1 (IH (pred n))).
          + now rewrite !firstn_map, keep_well_formed_firstn.
        - exact (proj2 (IH (pred n))). }
      split; exact Hstart.
    + rewrite !keep_well_formed_pending. cbn [map app].
      rewrite !decode_from_pending. split.
      * exact (proj1 (IH k)).
      * exact (proj2 (IH k)).
Qed.

(** A page that is well-formed UTF-8 is kept whole. *)
Lemma keep_well_formed_strict (b : list byte) :
  forall pending out,
    decode_from Strict pending (map byte_val b) = Return out ->
    keep_well_formed pending true b = b.
Proof.
  induction b as [|c t IH]; intros pending out; [reflexivity|].
  destruct pending as [|k].
  - rewrite keep_well_formed_start. cbn [map]. rewrite decode_from_start.
    destruct (utf8_decode_one (byte_val c :: map byte_val t)) as [cp n|n];
      [|discriminate].
    destruct (decode_from Strict (pred n) (map byte_val t)) as [rest|e] eqn:Hrest;
      [|discriminate].
    intros _. f_equal. eapply IH; eassumption.
  - rewrite keep_well_formed_pending. cbn [map].
    rewrite decode_from_pending. intros Hrest.
    cbn [app]. f_equal. eapply IH; eassumption.
Qed.

(** C9, amended: for every byte string the page is decoded as UTF-8 with
    undecodable byte sequences dropped, not replaced, and the decode never
    fails: the text is exactly the strict decoding of the page with its
    ill-formed spans deleted, bytes are only deleted and the rest keeps
    its order, and a page that is well-formed UTF-8 is kept whole and
    decoded as the strict codec decodes it.  What [errors="replace"]
    gives is this text with a replacement character at each deleted
    span. *)
Theorem C9_decode_page_ignores (page : list byte) :
  exists s r,
    decode_page page = Return s
    /\ bytes_decode Strict (well_formed_bytes page) = Return s
    /\ subseq (well_formed_bytes page) page
    /\ bytes_decode Replace page = Return r
    /\ without_replacements s r
    /\ (forall t,
          bytes_decode Strict page = Return t ->
          s = t /\ well_formed_bytes page = page).
Proof.
  unfold decode_page, bytes_decode, well_formed_bytes.
  destruct (decode_from_ignore_replace (map byte_val page) 0)
    as (a & b & Ha & Hb & Hab).
  exists a, b. split; [exact Ha|]. split.
  - now rewrite <- (proj1 (decode_from_ignore_kept page 0)).
  - split; [apply keep_well_formed_subseq|]. split; [exact Hb|].
    split; [exact Hab|].
    intros t Ht. split.
    + apply decode_from_strict_ignore in Ht. congruence.
    + eapply keep_well_formed_strict; eassumption.
Qed.

(** The amended C9 on a page with an ill-formed byte between two
    well-formed ones: the byte is deleted, the text is [AB]. *)
Lemma C9_decode_page_ignores_witness :
  well_formed_bytes [x41; xff; x42] = [x41; x42]
  /\ exists s r,
       decode_page [x41; xff; x42] = Return s
       /\ bytes_decode Strict (well_formed_bytes [x41; xff; x42]) = Return s
       /\ subseq (well_formed_bytes [x41; xff; x42]) [x41; xff; x42]
       /\ bytes_decode Replace [x41; xff; x42] = Return r
       /\ without_replacements s r
       /\ (forall t,
             bytes_decode Strict [x41; xff; x42] = Return t ->
             s = t /\ well_formed_bytes [x41; xff; x42] = [x41; xff; x42]).
Proof.
  split; [reflexivity|]. exact (C9_decode_page_ignores [x41; xff; x42]).
Defined.

(* ===================================================================== *)
(** ** Validating the server address (C8) *)
(* ===================================================================== *)

Lemma startswith_prefix_nonempty (s prefix : pystr) :
  prefix <> [] -> startswith s prefix = true -> s <> [].
Proof.
  destruct prefix as [|c prefix]; [congruence|].
  intros _. apply startswith_nonempty.
Qed.

Lemma validate_server_raises (address : option pystr) (st : State) (e : exn) :
  fst (_validate_server address st) = Raise e ->
  e = ValueError VALUE_ERROR_MESSAGE
  /\ (address = None \/ address = Some []).
Proof.
  unfold _validate_server.
  destruct address as [a|]; [|intros [= <-]; auto].
  destruct (truthy (PStr a)) eqn:Ha; simpl negb; cbv iota.
  - destruct (startswith a (lit "local_google")); [discriminate|].
    destruct (startswith a (lit "http://") || startswith a (lit "https://"));
      discriminate.
  - apply truthy_str in Ha. subst a. intros [= <-]. auto.
Qed.

(** C8: [_validate_server] raises exactly when the address is absent or
    empty, and then it raises the [ValueError] of a missing server, which
    is also what the constructor raises; an address that starts with
    [http://] or [https://] is returned as it is; any other address that
    does not start with [local_google] is returned with [http://] put in
    front. *)
Theorem C8_validate_server (address : option pystr) (st : State) :
  ((exists e, fst (_validate_server address st) = Raise e)
   <-> (address = None \/ address = Some []))
  /\ ((address = None \/ address = Some []) ->
      fst (_validate_server address st) = Raise (ValueError VALUE_ERROR_MESSAGE)
      /\ forall token,
           new {| skip_retrieval_token := Some token;
                  search_server := address |}
           = Raise (ValueError VALUE_ERROR_MESSAGE))
  /\ (forall a,
        address = Some a ->
        startswith a (lit "http://") = true
        \/ startswith a (lit "https://") = true ->
        fst (_validate_server address st) = Return a)
  /\ (forall a,
        address = Some a ->
        a <> [] ->
        startswith a (lit "local_google") = false ->
        startswith a (lit "http://") = false ->
        startswith a (lit "https://") = false ->
        fst (_validate_server address st) = Return (lit "http://" ++ a)).
Proof.
  assert (Hraise : address = None \/ address = Some [] ->
                   forall st', fst (_validate_server address st')
                               = Raise (ValueError VALUE_ERROR_MESSAGE)).
  { intros [-> | ->] st'; reflexivity. }
  split; [|split; [|split]].
  - split.
    + intros [e He]. now apply validate_server_raises in He.
    + intros H. eexists. now apply Hraise.
  - intros H. split; [now apply Hraise|].
    intros token. destruct H as [-> | ->]; reflexivity.
  - intros a -> Hhttp. unfold _validate_server.
    assert (Ha : a <> []).
    { destruct Hhttp as [H|H];
        apply startswith_prefix_nonempty in H; auto; discriminate. }
    destruct a as [|c a]; [congruence|].
    change (negb (truthy (PStr (c :: a)))) with false. cbv iota.
    destruct (startswith (c :: a) (lit "local_google")); [reflexivity|].
    destruct Hhttp as [-> | ->]; [reflexivity|].
    now rewrite orb_true_r.
  - intros a -> Ha Hlocal Hhttp Hhttps. unfold _validate_server.
    destruct a as [|c a]; [congruence|].
    change (negb (truthy (PStr (c :: a)))) with false. cbv iota.
    now rewrite Hlocal, Hhttp, Hhttps.
Qed.

(** C8 on the address [example.com/search], which gets its protocol. *)
Lemma C8_validate_server_witness :
  fst (_validate_server (Some (lit "example.com/search")) Samples.st0)
  = Return (lit "http://example.com/search").
Proof.
  apply (proj2 (proj2 (proj2
    (C8_validate_server (Some (lit "example.com/search")) Samples.st0)))
    (lit "example.com/search")).
  - reflexivity.
  - discriminate.
  - reflexivity.
  - reflexivity.
  - reflexivity.
Defined.

(* ===================================================================== *)
(** ** What a call may change *)
(* ===================================================================== *)

Section Frames.

Variable R : State -> State -> Prop.
Hypothesis R_refl : forall st, R st st.
Hypothesis R_trans : forall a b c, R a b -> R b c -> R a c.

Lemma keeps_ret {A : Type} (a : A) : keeps R (ret a).
Proof. intros st. apply R_refl. Qed.

Lemma keeps_raise {A : Type} (e : exn) : keeps R (@raise A e).
Proof. intros st. apply R_refl. Qed.

Lemma keeps_lift {A : Type} (o : Outcome A) : keeps R (lift o).
Proof. intros st. apply R_refl. Qed.

Lemma keeps_gets {A : Type} (f : Retriever -> A) : keeps R (gets f).
Proof. intros st. apply R_refl. Qed.

Lemma keeps_history : keeps R history.
Proof. intros st. apply R_refl. Qed.

Lemma keeps_try {A B : Type} (c : M A) (h : exn -> M B) (k : A -> M B) :
  keeps R c -> (forall e, keeps R (h e)) -> (forall a, keeps R (k a)) ->
  keeps R (try_except_else c h k).
Proof.
  intros Hc Hh Hk st. unfold try_except_else.
  specialize (Hc st). destruct (c st) as [[a|e] st1]; simpl in Hc.
  - eapply R_trans; [exact Hc|apply Hk].
  - eapply R_trans; [exact Hc|apply Hh].
Qed.

Lemma keeps_bind {A B : Type} (c : M A) (k : A -> M B) :
  keeps R c -> (forall a, keeps R (k a)) -> keeps R (bind c k).
Proof.
  intros Hc Hk st. unfold bind.
  specialize (Hc st). destruct (c st) as [[a|e] st1]; simpl in Hc.
  - eapply R_trans; [exact Hc|apply Hk].
  - exact Hc.
Qed.

End Frames.

Lemma frame_refl (st : State) : frame st st.
Proof.
  repeat split. exists []. split; [now rewrite app_nil_r|constructor].
Qed.

Lemma frame_trans (a b c : State) : frame a b -> frame b c -> frame a c.
Proof.
  intros (Ht1 & Ha1 & evs1 & He1 & Hf1) (Ht2 & Ha2 & evs2 & He2 & Hf2).
  repeat split; try congruence.
  exists (evs1 ++ evs2). split.
  - now rewrite He2, He1, app_assoc.
  - apply Forall_app. now split.
Qed.

Lemma frame_record (ev : Event) :
  is_post ev = false -> keeps frame (record ev).
Proof.
  intros Hev st. repeat split. exists [ev]. split; [reflexivity|].
  now repeat constructor.
Qed.

Lemma frame_set_use_local (b : bool) : keeps frame (set_use_local b).
Proof.
  intros st. repeat split. exists []. simpl.
  split; [now rewrite app_nil_r|constructor].
Qed.

Ltac frames :=
  repeat match goal with
  | |- keeps frame (bind _ _) =>
      apply (keeps_bind frame frame_trans); [|intro]
  | |- keeps frame (try_except_else _ _ _) =>
      apply (keeps_try frame frame_trans); [|intro|intro]
  | |- keeps frame (ret _) => apply (keeps_ret frame frame_refl)
  | |- keeps frame (raise _) => apply (keeps_raise frame frame_refl)
  | |- keeps frame (lift _) => apply (keeps_lift frame frame_refl)
  | |- keeps frame (gets _) => apply (keeps_gets frame frame_refl)
  | |- keeps frame history => apply (keeps_history frame frame_refl)
  | |- keeps frame (set_use_local _) => apply frame_set_use_local
  | |- keeps frame (record _) => apply frame_record; reflexivity
  end.

Lemma frame_get (env : Env) (url : pystr) : keeps frame (get env url).
Proof. unfold get. frames. Qed.

Lemma frame_search (env : Env) (q : pystr) (num stop : Z) :
  keeps frame (search env q num stop).
Proof. unfold search. frames. Qed.

Lemma frame_get_and_parse (env : Env) (url : pystr) :
  keeps frame (_get_and_parse env url).
Proof. unfold _get_and_parse. frames; apply frame_get. Qed.

Lemma frame_for_url_in (env : Env) (n : Z) (urls : Gen) :
  forall content, keeps frame (for_url_in env n urls content).
Proof.
  induction urls as [|e|url rest IH]; intros content; simpl.
  - frames.
  - frames.
  - destruct (len content >=? n); frames.
    + apply frame_get_and_parse.
    + destruct (truthy a); apply IH.
Qed.

Lemma frame_query_local_search_server (env : Env) (q : pystr) (n : Z) :
  keeps frame (_query_local_search_server env q n).
Proof.
  unfold _query_local_search_server. frames.
  - apply frame_search.
  - apply frame_for_url_in.
Qed.

(** A query that is not the token goes to the local search, whatever
    [use_local] and [server_address] were. *)
Lemma retrieve_single_local (env : Env) (q : pystr) (n : Z) (st : State) :
  str_eq_val q (skip_query_token (self st)) = false ->
  _retrieve_single env q n st
  = bind (_query_local_search_server env q n)
         (fun resp => lift (assemble resp []))
         (with_use_local true st).
Proof.
  intros Hq. unfold _retrieve_single, bind at 1, gets at 1. simpl.
  rewrite Hq. reflexivity.
Qed.

Lemma retrieve_single_skip (env : Env) (q : pystr) (n : Z) (st : State) :
  str_eq_val q (skip_query_token (self st)) = true ->
  _retrieve_single env q n st = (Return PNone, st).
Proof.
  intros Hq. unfold _retrieve_single, bind, gets. simpl.
  rewrite Hq. reflexivity.
Qed.

Lemma frame_retrieve_single (env : Env) (q : pystr) (n : Z) :
  keeps frame (_retrieve_single env q n).
Proof.
  intros st.
  destruct (str_eq_val q (skip_query_token (self st))) eqn:Hq.
  - rewrite retrieve_single_skip by assumption. apply frame_refl.
  - rewrite retrieve_single_local by assumption.
    apply frame_trans with (with_use_local true st).
    + apply (frame_set_use_local true st).
    + revert st Hq. intros st _. generalize (with_use_local true st).
      change (keeps frame (bind (_query_local_search_server env q n)
                                (fun resp => lift (assemble resp [])))).
      frames. apply frame_query_local_search_server.
Qed.

Lemma frame_retrieve (env : Env) (n : Z) (queries : list pystr) :
  keeps frame (retrieve env queries n).
Proof.
  induction queries as [|q queries IH]; simpl; frames.
  - apply frame_retrieve_single.
  - apply IH.
Qed.

(* ===================================================================== *)
(** ** The batch: [retrieve] (C1, C3) *)
(* ===================================================================== *)

Lemma retrieve_cons (env : Env) (q : pystr) (queries : list pystr) (n : Z)
  (st : State) :
  retrieve env (q :: queries) n st
  = match _retrieve_single env q n st with
    | (Return docs, st1) =>
        match retrieve env queries n st1 with
        | (Return rest, st2) => (Return (docs :: rest), st2)
        | (Raise e, st2) => (Raise e, st2)
        end
    | (Raise e, st1) => (Raise e, st1)
    end.
Proof.
  simpl. unfold bind.
  destruct (_retrieve_single env q n st) as [[docs|e] st1]; [|reflexivity].
  destruct (retrieve env queries n st1) as [[rest|e] st2]; reflexivity.
Qed.

Lemma retrieve_cons_inv (env : Env) (q : pystr) (queries : list pystr) (n : Z)
  (st st' : State) (res : list pyval) :
  retrieve env (q :: queries) n st = (Return res, st') ->
  exists docs rest st1,
    _retrieve_single env q n st = (Return docs, st1)
    /\ retrieve env queries n st1 = (Return rest, st')
    /\ res = docs :: rest.
Proof.
  rewrite retrieve_cons.
  destruct (_retrieve_single env q n st) as [[docs|e] st1]; [|discriminate].
  destruct (retrieve env queries n st1) as [[rest|e] st2] eqn:Hrest;
    [|discriminate].
  intros [= <- <-]. exists docs, rest, st1. auto.
Qed.

Lemma retrieve_length (env : Env) (n : Z) (queries : list pystr) :
  forall st st' res,
    retrieve env queries n st = (Return res, st') ->
    List.length res = List.length queries.
Proof.
  induction queries as [|q queries IH]; intros st st' res H.
  - injection H as <- _. reflexivity.
  - apply retrieve_cons_inv in H as (docs & rest & st1 & _ & Hrest & ->).
    simpl. f_equal. eapply IH; eassumption.
Qed.

(** The result at position [i] is what [_retrieve_single] returned for the
    query at position [i], called in the state the first [i] queries left. *)
Lemma retrieve_position (env : Env) (n : Z) (queries : list pystr) :
  forall st st' res i q,
    retrieve env queries n st = (Return res, st') ->
    nth_error queries i = Some q ->
    exists sti sti' docs,
      retrieve env (firstn i queries) n st = (Return (firstn i res), sti)
      /\ _retrieve_single env q n sti = (Return docs, sti')
      /\ retrieve env (firstn (S i) queries) n st
         = (Return (firstn (S i) res), sti')
      /\ nth_error res i = Some docs.
Proof.
  induction queries as [|q0 queries IH]; intros st st' res i q H Hi.
  - destruct i; discriminate.
  - apply retrieve_cons_inv in H as (docs & rest & st1 & Hq0 & Hrest & ->).
    destruct i as [|i].
    + injection Hi as <-. exists st, st1, docs. repeat split; auto.
      change (firstn 1 (q0 :: queries)) with (q0 :: firstn 0 queries).
      rewrite retrieve_cons, Hq0. reflexivity.
    + destruct (IH _ _ _ _ _ Hrest Hi) as (sti & sti' & d & H1 & H2 & H3 & H4).
      exists sti, sti', d. repeat split; auto.
      * change (firstn (S i) (q0 :: queries)) with (q0 :: firstn i queries).
        rewrite retrieve_cons, Hq0, H1. reflexivity.
      * change (firstn (S (S i)) (q0 :: queries))
          with (q0 :: firstn (S i) queries).
        rewrite retrieve_cons, Hq0, H3. reflexivity.
Qed.

(** [retrieve] returns whenever [_retrieve_single] does on its queries. *)
Lemma retrieve_returns (env : Env) (n : Z) (queries : list pystr) :
  (forall q st1, In q queries ->
     exists docs st2, _retrieve_single env q n st1 = (Return docs, st2)) ->
  forall st, exists res st', retrieve env queries n st = (Return res, st').
Proof.
  induction queries as [|q queries IH]; intros Hall st.
  - now exists [], st.
  - destruct (Hall q st (or_introl eq_refl)) as (docs & st1 & Hq).
    destruct (IH (fun q' s H => Hall q' s (or_intror H)) st1)
      as (rest & st2 & Hrest).
    exists (docs :: rest), st2. now rewrite retrieve_cons, Hq, Hrest.
Qed.


Lemma mock_retrieve_position (token : pyval) (n : Z) (queries : list pystr)
  (i : nat) (q : pystr) :
  nth_error queries i = Some q ->
  nth_error (SearchEngineRetrieverMock.retrieve token queries n) i
  = Some (SearchEngineRetrieverMock.mock_docs token q n).
Proof.
  intros H. unfold SearchEngineRetrieverMock.retrieve.
  now rewrite nth_error_map, H.
Qed.

(** C1: the list [retrieve] returns has one entry per query, and the entry
    at position [i] is the result for the query at position [i]: for the
    mock, its documents for that query; for the search engine retriever,
    what [_retrieve_single] returned for it after the queries before it.
    The mock always returns; the search engine retriever returns whenever
    its single-query calls do. *)
Theorem C1_retrieve_aligned (queries : list pystr) (num_ret : Z) :
  (forall token,
     List.length (SearchEngineRetrieverMock.retrieve token queries num_ret)
     = List.length queries
     /\ forall i q,
          nth_error queries i = Some q ->
          nth_error (SearchEngineRetrieverMock.retrieve token queries num_ret) i
          = Some (SearchEngineRetrieverMock.mock_docs token q num_ret))
  /\ (forall env st res st',
        retrieve env queries num_ret st = (Return res, st') ->
        List.length res = List.length queries
        /\ forall i q,
             nth_error queries i = Some q ->
             exists sti sti' docs,
               retrieve env (firstn i queries) num_ret st
               = (Return (firstn i res), sti)
               /\ _retrieve_single env q num_ret sti = (Return docs, sti')
               /\ nth_error res i = Some docs)
  /\ (forall env,
        (forall q st1, In q queries ->
           exists docs st2,
             _retrieve_single env q num_ret st1 = (Return docs, st2)) ->
        forall st, exists res st',
          retrieve env queries num_ret st = (Return res, st')).
Proof.
  split; [|split].
  - intros token. split.
    + unfold SearchEngineRetrieverMock.retrieve. apply length_map.
    + intros i q. apply mock_retrieve_position.
  - intros env st res st' H. split.
    + eapply retrieve_length; eassumption.
    + intros i q Hi.
      destruct (retrieve_position _ _ _ _ _ _ _ _ H Hi)
        as (sti & sti' & docs & H1 & H2 & _ & H4).
      now exists sti, sti', docs.
  - intros env. apply retrieve_returns.
Qed.

(** C1 on the batch [["skip", "q"]] with two documents asked for. *)
Lemma C1_retrieve_aligned_witness :
  exists res st',
    retrieve Samples.env_up [lit "skip"; lit "q"] 2 Samples.st0
    = (Return res, st')
    /\ List.length res = 2%nat
    /\ exists sti sti' docs,
         retrieve Samples.env_up (firstn 1 [lit "skip"; lit "q"]) 2 Samples.st0
         = (Return (firstn 1 res), sti)
         /\ _retrieve_single Samples.env_up (lit "q") 2 sti
            = (Return docs, sti')
         /\ nth_error res 1 = Some docs.
Proof.
  eexists. eexists. split; [reflexivity|].
  pose proof (proj1 (proj2
    (C1_retrieve_aligned [lit "skip"; lit "q"] 2)) Samples.env_up Samples.st0
    _ _ eq_refl) as [Hlen Hpos].
  split; [exact Hlen|].
  exact (Hpos 1%nat (lit "q") eq_refl).
Defined.

(** C3: a query equal to the skip token gets [None], whatever [num_ret]:
    at its position in the mock's list; from [_retrieve_single], which
    leaves the state as it was (nothing is looked up or fetched); and at
    its position in the list of [retrieve], where the state after the
    first [i + 1] queries is the state after the first [i]. *)
Theorem C3_skip_token (q : pystr) (num_ret : Z) :
  (forall queries i,
     nth_error queries i = Some q ->
     nth_error (SearchEngineRetrieverMock.retrieve (PStr q) queries num_ret) i
     = Some PNone)
  /\ (forall env st,
        skip_query_token (self st) = PStr q ->
        _retrieve_single env q num_ret st = (Return PNone, st))
  /\ (forall env st queries i res st',
        skip_query_token (self st) = PStr q ->
        nth_error queries i = Some q ->
        retrieve env queries num_ret st = (Return res, st') ->
        nth_error res i = Some PNone
        /\ exists sti,
             retrieve env (firstn i queries) num_ret st
             = (Return (firstn i res), sti)
             /\ retrieve env (firstn (S i) queries) num_ret st
                = (Return (firstn (S i) res), sti)).
Proof.
  assert (Hskip : forall env st,
             skip_query_token (self st) = PStr q ->
             _retrieve_single env q num_ret st = (Return PNone, st)).
  { intros env st Htoken. apply retrieve_single_skip.
    rewrite Htoken. apply str_eqb_refl. }
  split; [|split].
  - intros queries i Hi.
    rewrite (mock_retrieve_position _ _ _ _ _ Hi).
    unfold SearchEngineRetrieverMock.mock_docs. simpl str_eq_val.
    now rewrite str_eqb_refl.
  - exact Hskip.
  - intros env st queries i res st' Htoken Hi H.
    destruct (retrieve_position _ _ _ _ _ _ _ _ H Hi)
      as (sti & sti' & docs & H1 & H2 & H3 & H4).
    assert (Hsti : skip_query_token (self sti) = PStr q).
    { pose proof (frame_retrieve env num_ret (firstn i queries) st) as Hf.
      rewrite H1 in Hf. destruct Hf as (Hf & _). simpl in Hf. congruence. }
    rewrite (Hskip env sti Hsti) in H2. injection H2 as <- <-.
    split; [exact H4|]. now exists sti.
Qed.

(** C3 on the batch [["skip", "q"]] of a retriever whose token is ["skip"]. *)
Lemma C3_skip_token_witness :
  nth_error (SearchEngineRetrieverMock.retrieve (PStr (lit "skip"))
               [lit "skip"; lit "q"] 2) 0 = Some PNone
  /\ _retrieve_single Samples.env_up (lit "skip") 2 Samples.st0
     = (Return PNone, Samples.st0)
  /\ exists res st',
       retrieve Samples.env_up [lit "skip"; lit "q"] 2 Samples.st0
       = (Return res, st')
       /\ nth_error res 0 = Some PNone.
Proof.
  destruct (C3_skip_token (lit "skip") 2) as (Hmock & Hsingle & Hbatch).
  split; [|split].
  - exact (Hmock [lit "skip"; lit "q"] 0%nat eq_refl).
  - exact (Hsingle Samples.env_up Samples.st0 eq_refl).
  - eexists. eexists. split; [reflexivity|].
    exact (proj1 (Hbatch Samples.env_up Samples.st0 [lit "skip"; lit "q"]
                    0%nat _ _ eq_refl eq_refl eq_refl)).
Defined.

(* ===================================================================== *)
(** ** Local and remote search (C7) *)
(* ===================================================================== *)

Lemma new_use_local (opt : Opt) (r : Retriever) :
  new opt = Return r -> use_local r = true.
Proof.
  unfold new, __init__, RetrieverAPI.__init__, _validate_server.
  destruct (skip_retrieval_token opt) as [token|]; [|discriminate].
  unfold bind at 1.
  destruct (search_server opt) as [a|]; [|discriminate].
  destruct (truthy (PStr a)); simpl negb; cbv iota; [|discriminate].
  destruct (startswith a (lit "local_google")) eqn:Hlocal.
  - unfold bind, set_use_local, set_server_address, gets, ret. simpl.
    rewrite Hlocal. intros [= <-]. reflexivity.
  - destruct (startswith a (lit "http://") || startswith a (lit "https://"));
      unfold bind, set_use_local, set_server_address, gets, ret; simpl;
      rewrite ?Hlocal; intros [= <-]; reflexivity.
Qed.

(** The trace of the local search: the lookup, then no [requests.post]. *)
Lemma query_local_trace (env : Env) (q : pystr) (n : Z) (st : State) :
  exists evs,
    trace (snd (_query_local_search_server env q n st))
    = trace st ++ EvSearch q n n :: evs
    /\ Forall (fun ev => is_post ev = false) evs.
Proof.
  unfold _query_local_search_server, search.
  unfold bind at 1, bind at 1, history, bind at 1, record, ret at 1.
  cbv beta iota.
  set (st1 := {| self := self st; trace := trace st ++ [EvSearch q n n] |}).
  set (urls := googlesearch_search env (trace st) q n n).
  assert (Hrest : keeps frame
            (bind (for_url_in env n urls [])
               (fun content =>
                  ret (dict_get [(lit "response", PList (slice_to n content))]
                         (lit "response") PNone)))).
  { frames. apply frame_for_url_in. }
  destruct (Hrest st1) as (_ & _ & evs & Hevs & Hall).
  exists evs. split; [|exact Hall].
  rewrite Hevs. subst st1. simpl trace. now rewrite <- app_assoc.
Qed.

(** C7: a query that is not the skip token is answered by
    [_query_local_search_server], whatever the address and the flag of the
    retriever are: [_retrieve_single] is the local search followed by the
    assembly of the documents, its trace is the provider lookup followed by
    calls that are no [requests.post], and a constructed retriever has
    [use_local] set whatever address was validated. *)
Theorem C7_dispatch_always_local (env : Env) (st : State) (q : pystr)
  (num_ret : Z) :
  str_eq_val q (skip_query_token (self st)) = false ->
  _retrieve_single env q num_ret st
  = bind (_query_local_search_server env q num_ret)
         (fun resp => lift (assemble resp []))
         (with_use_local true st)
  /\ (exists evs,
        trace (snd (_retrieve_single env q num_ret st))
        = trace st ++ EvSearch q num_ret num_ret :: evs
        /\ Forall (fun ev => is_post ev = false) evs)
  /\ (forall opt, new opt = Return (self st) -> use_local (self st) = true).
Proof.
  intros Hq. split; [now apply retrieve_single_local|]. split.
  - rewrite retrieve_single_local by assumption.
    destruct (query_local_trace env q num_ret (with_use_local true st))
      as (evs & Hevs & Hall).
    exists evs. split; [|exact Hall].
    unfold bind.
    destruct (_query_local_search_server env q num_ret (with_use_local true st))
      as [[resp|e] st1]; exact Hevs.
  - intros opt. apply new_use_local.
Qed.

(** C7 on a retriever constructed with the address
    [http://example.com/search]. *)
Lemma C7_dispatch_always_local_witness :
  new Samples.opt_remote = Return (self Samples.st0)
  /\ exists evs,
       trace (snd (_retrieve_single Samples.env_up (lit "q") 2 Samples.st0))
       = trace Samples.st0 ++ EvSearch (lit "q") 2 2 :: evs
       /\ Forall (fun ev => is_post ev = false) evs.
Proof.
  split; [reflexivity|].
  exact (proj1 (proj2
    (C7_dispatch_always_local Samples.env_up Samples.st0 (lit "q") 2 eq_refl))).
Defined.

(* ===================================================================== *)
(** ** Fetching one page (C2) *)
(* ===================================================================== *)

(** C2 fails on the code: [_get_and_parse] calls [requests.get] once
    before its [try], so a connection error of that call leaves
    [_get_and_parse] as an exception, and with it [_retrieve_single],
    although four more candidates could be fetched.  Only a failure of the
    second, guarded call is turned into [None]. *)
Lemma C2_first_get_is_unguarded :
  _get_and_parse Samples.env_u1_down (lit "u1") Samples.st0
  = (Raise ConnectionError,
     {| self := Samples.remote_retriever; trace := [EvGet (lit "u1")] |})
  /\ _retrieve_single Samples.env_u1_down (lit "q") 3 Samples.st0
     = (Raise ConnectionError,
        {| self := Samples.remote_retriever;
           trace := [EvSearch (lit "q") 3 3; EvGet (lit "u1")] |})
  /\ fst (retrieve Samples.env_u1_down [lit "q"] 3 Samples.st0)
     = Raise ConnectionError
  /\ fst (_get_and_parse Samples.env_flaky (lit "u2") Samples.st0)
     = Return PNone.
Proof. repeat split. Qed.

(* ===================================================================== *)
(** ** Asking for no document (C4) *)
(* ===================================================================== *)

(** C4 as stated fails: with [num_ret = 0] the provider is still called,
    [googlesearch.search(q, num=0, stop=0)], so the state is not the one
    before the call; and when the provider raises, no list is returned. *)
Lemma C4_provider_is_called :
  trace (snd (_retrieve_single Samples.env_up (lit "q") 0 Samples.st0))
  = [EvSearch (lit "q") 0 0]
  /\ _retrieve_single Samples.env_up (lit "q") 0 Samples.st0
     <> (Return (PList []), Samples.st0)
  /\ fst (_retrieve_single Samples.env_no_provider (lit "q") 0 Samples.st0)
     = Raise ProviderError.
Proof. repeat split. discriminate. Qed.

(** C4, amended: with [num_ret = 0] a query that is not the skip token
    makes one call of the search provider and no [requests.get]; it
    returns the empty list of documents unless the provider raises at
    once, and then that exception is the outcome. *)
Theorem C4_zero_documents (env : Env) (st : State) (q : pystr) :
  str_eq_val q (skip_query_token (self st)) = false ->
  trace (snd (_retrieve_single env q 0 st)) = trace st ++ [EvSearch q 0 0]
  /\ fst (_retrieve_single env q 0 st)
     = match googlesearch_search env (trace st) q 0 0 with
       | GRaise e => Raise e
       | GStop | GYield _ _ => Return (PList [])
       end.
Proof.
  intros Hq. rewrite retrieve_single_local by assumption.
  unfold _query_local_search_server, search, bind, history, record, ret, lift.
  simpl.
  destruct (googlesearch_search env (trace st) q 0 0) as [|e|url rest];
    simpl; split; reflexivity.
Qed.

(** The amended C4 in a world where every page is there. *)
Lemma C4_zero_documents_witness :
  trace (snd (_retrieve_single Samples.env_up (lit "q") 0 Samples.st0))
  = trace Samples.st0 ++ [EvSearch (lit "q") 0 0]
  /\ fst (_retrieve_single Samples.env_up (lit "q") 0 Samples.st0)
     = Return (PList []).
Proof.
  exact (C4_zero_documents Samples.env_up Samples.st0 (lit "q") eq_refl).
Defined.

(* ===================================================================== *)
(** ** The loop over the candidates (C5) *)
(* ===================================================================== *)

Lemma get_and_parse_returns (env : Env) (url : pystr) (st st' : State)
  (r : pyval) :
  _get_and_parse env url st = (Return r, st') ->
  self st' = self st
  /\ trace st' = trace st ++ [EvGet url; EvGet url]
  /\ fetch_result url r.
Proof.
  unfold _get_and_parse, get, bind, try_except_else, history, record, lift.
  simpl.
  destruct (requests_get env (trace st) url) as [resp1|e1]; [|discriminate].
  destruct (requests_get env (trace st ++ [EvGet url]) url) as [resp|e].
  - unfold decode_page.
    destruct (bytes_decode_ignore_total (content resp)) as [decoded ->].
    unfold ret. intros [= <- <-]. simpl. repeat split.
    + now rewrite <- app_assoc.
    + right. eauto.
  - unfold ret. intros [= <- <-]. simpl. repeat split.
    + now rewrite <- app_assoc.
    + now left.
Qed.

Lemma len_app {A : Type} (l1 l2 : list A) : len (l1 ++ l2) = len l1 + len l2.
Proof. unfold len. rewrite length_app. lia. Qed.

Lemma for_url_in_returns (env : Env) (n : Z) (urls : Gen) :
  forall content st out st',
    for_url_in env n urls content st = (Return out, st') ->
    exists fetched,
      out = content ++ successes fetched
      /\ trace st' = trace st ++ gets_of fetched
      /\ (exists rest, gen_urls urls = map fst fetched ++ rest)
      /\ Forall (fun p => fetch_result (fst p) (snd p)) fetched
      /\ (forall pre p post,
            fetched = pre ++ p :: post ->
            len (content ++ successes pre) < n)
      /\ (len content <= Z.max 0 n -> len out <= Z.max 0 n).
Proof.
  induction urls as [|e|url rest IH]; intros content st out st'; simpl.
  - intros [= <- <-]. exists []. unfold successes, gets_of. simpl.
    rewrite !app_nil_r. repeat split; auto.
    + now exists [].
    + intros [|? ?] ? ? H; discriminate.
  - discriminate.
  - destruct (len content >=? n) eqn:Hfull.
    + intros [= <- <-]. exists []. unfold successes, gets_of. simpl.
      rewrite !app_nil_r. repeat split; auto.
      * now exists (url :: gen_urls rest).
      * intros [|? ?] ? ? H; discriminate.
    + unfold bind.
      destruct (_get_and_parse env url st) as [[r|e] st1] eqn:Hfetch;
        [|discriminate].
      apply get_and_parse_returns in Hfetch as (_ & Htrace & Hr).
      assert (Hroom : len content < n) by lia.
      destruct (truthy r) eqn:Hok; intros Hloop;
        apply IH in Hloop
          as (fetched & Hout & Htr & (more & Hurls) & Hall & Hstop & Hbound);
        exists ((url, r) :: fetched); unfold successes, gets_of in *; simpl;
        rewrite ?Hok.
      * repeat split.
        -- now rewrite Hout, <- app_assoc.
        -- now rewrite Htr, Htrace, <- app_assoc.
        -- exists more. now rewrite Hurls.
        -- now constructor.
        -- intros [|p0 pre] p post Hsplit; simpl.
           ++ now rewrite app_nil_r.
           ++ injection Hsplit as <- Hsplit. simpl. rewrite Hok.
              specialize (Hstop _ _ _ Hsplit).
              now rewrite <- app_assoc in Hstop.
        -- intros _. apply Hbound. rewrite len_app. unfold len at 2. simpl. lia.
      * repeat split.
        -- exact Hout.
        -- now rewrite Htr, Htrace, <- app_assoc.
        -- exists more. now rewrite Hurls.
        -- now constructor.
        -- intros [|p0 pre] p post Hsplit; simpl.
           ++ now rewrite app_nil_r.
           ++ injection Hsplit as <- Hsplit. simpl. rewrite Hok.
              exact (Hstop _ _ _ Hsplit).
        -- exact Hbound.
Qed.

Lemma slice_to_all {A : Type} (n : Z) (l : list A) :
  len l <= Z.max 0 n -> slice_to n l = l.
Proof.
  unfold slice_to, len. intros H. destruct (0 <=? n) eqn:Hn.
  - apply firstn_all2. lia.
  - destruct l; [now rewrite firstn_nil|]. simpl List.length in H. lia.
Qed.

(** [_query_local_search_server] is the provider lookup, the loop, and
    the slice of what the loop collected. *)
Lemma query_local_unfold (env : Env) (q : pystr) (n : Z) (st : State) :
  _query_local_search_server env q n st
  = match for_url_in env n (googlesearch_search env (trace st) q n n) []
            {| self := self st; trace := trace st ++ [EvSearch q n n] |}
    with
    | (Return out, st1) => (Return (PList (slice_to n out)), st1)
    | (Raise e, st1) => (Raise e, st1)
    end.
Proof.
  unfold _query_local_search_server, search.
  unfold bind at 1, bind at 1, history, bind at 1, record, ret at 1.
  cbv beta iota. unfold bind.
  destruct (for_url_in env n (googlesearch_search env (trace st) q n n) []
              {| self := self st; trace := trace st ++ [EvSearch q n n] |})
    as [[out|e] st1]; reflexivity.
Qed.

(** C5 fails on the code, by the defect of C2: the provider yields five
    URLs of which [u2] and [u4] cannot be reached, and three documents are
    asked for.  The three other pages can be fetched, so the loop should
    leave [u2] and [u4] out and return the documents of [u1], [u3] and
    [u5]; instead the connection error of the first [requests.get] of
    [u2] ends [_query_local_search_server], and the query, after one page. *)
Lemma C5_failed_fetch_aborts_query :
  gen_urls (googlesearch_search Samples.env_two_down [] (lit "q") 3 3)
  = Samples.five
  /\ (forall url,
        In url [lit "u1"; lit "u3"; lit "u5"] ->
        exists title text,
          fst (_get_and_parse Samples.env_two_down url Samples.st0)
          = Return (PDict [(lit "title", PStr title);
                           (lit "content", PStr text);
                           (lit "url", PStr url)]))
  /\ _query_local_search_server Samples.env_two_down (lit "q") 3 Samples.st0
     = (Raise ConnectionError,
        {| self := Samples.remote_retriever;
           trace := [EvSearch (lit "q") 3 3;
                     EvGet (lit "u1"); EvGet (lit "u1");
                     EvGet (lit "u2")] |})
  /\ fst (_retrieve_single Samples.env_two_down (lit "q") 3 Samples.st0)
     = Raise ConnectionError.
Proof.
  split; [reflexivity|]. split; [|split; reflexivity].
  intros url [<-|[<-|[<-|[]]]]; do 2 eexists; reflexivity.
Qed.

(** The run of the loop, when it returns: the fetched candidates with
    what [_get_and_parse] returned for each, why the loop stopped, and
    what it returns. *)
Lemma for_url_in_run (env : Env) (n : Z) (urls : Gen) :
  forall content st out st',
    for_url_in env n urls content st = (Return out, st') ->
    exists fetched,
      fetches env st fetched st'
      /\ out = content ++ successes fetched
      /\ (exists rest, gen_urls urls = map fst fetched ++ rest)
      /\ (forall pre p post,
            fetched = pre ++ p :: post ->
            len (content ++ successes pre) < n)
      /\ (gen_skip (List.length fetched) urls = GStop
          \/ exists url rest,
               gen_skip (List.length fetched) urls = GYield url rest
               /\ n <= len out).
Proof.
  induction urls as [|e|url rest IH]; intros content st out st'; simpl.
  - intros [= <- <-]. exists []. unfold successes. simpl.
    rewrite app_nil_r. repeat split.
    + constructor.
    + now exists [].
    + intros [|? ?] ? ? H; discriminate.
    + now left.
  - discriminate.
  - destruct (len content >=? n) eqn:Hfull.
    + intros [= <- <-]. exists []. unfold successes. simpl.
      rewrite app_nil_r. repeat split.
      * constructor.
      * now exists (url :: gen_urls rest).
      * intros [|? ?] ? ? H; discriminate.
      * right. exists url, rest. split; [reflexivity|lia].
    + unfold bind.
      destruct (_get_and_parse env url st) as [[r|e] st1] eqn:Hfetch;
        [|discriminate].
      assert (Hroom : len content < n) by lia.
      intros Hloop.
      assert (Hrest : for_url_in env n rest
                        (content ++ (if truthy r then [r] else [])) st1
                      = (Return out, st')).
      { destruct (truthy r); [exact Hloop|now rewrite app_nil_r]. }
      apply IH in Hrest
        as (fetched & Hrun & Hout & (more & Hurls) & Hstop & Hwhy).
      exists ((url, r) :: fetched).
      assert (Hsucc : forall l, successes ((url, r) :: l)
                                = (if truthy r then [r] else []) ++ successes l).
      { intros l. unfold successes. simpl. now destruct (truthy r). }
      split; [econstructor; eassumption|]. split; [|split; [|split]].
      * now rewrite Hsucc, app_assoc.
      * exists more. simpl. now rewrite Hurls.
      * intros [|p0 pre] p post Hsplit.
        -- unfold successes. simpl. now rewrite app_nil_r.
        -- injection Hsplit as <- Hsplit. rewrite Hsucc, app_assoc.
           exact (Hstop _ _ _ Hsplit).
      * exact Hwhy.
Qed.

(** When [_query_local_search_server] returns: the candidates it fetched
    are the first URLs of the provider, in the provider's order, each
    fetched by [_get_and_parse] from the state the one before left; the
    documents returned are, in that order, the results that are not
    [None]; every fetch started with fewer than [n] documents collected;
    the loop stopped because the provider had no more URL or because [n]
    documents were there when the next URL came; and at most [n]
    documents are returned (none when [n] is negative). *)
Theorem query_local_run (env : Env) (q : pystr) (n : Z) (st st' : State)
  (resp : pyval) :
  _query_local_search_server env q n st = (Return resp, st') ->
  exists fetched,
    fetches env {| self := self st; trace := trace st ++ [EvSearch q n n] |}
      fetched st'
    /\ resp = PList (successes fetched)
    /\ (exists rest,
          gen_urls (googlesearch_search env (trace st) q n n)
          = map fst fetched ++ rest)
    /\ (forall pre p post,
          fetched = pre ++ p :: post -> len (successes pre) < n)
    /\ (gen_skip (List.length fetched)
          (googlesearch_search env (trace st) q n n) = GStop
        \/ exists url rest,
             gen_skip (List.length fetched)
               (googlesearch_search env (trace st) q n n)
             = GYield url rest
             /\ n <= len (successes fetched))
    /\ len (successes fetched) <= Z.max 0 n.
Proof.
  rewrite query_local_unfold.
  destruct (for_url_in env n (googlesearch_search env (trace st) q n n) []
              {| self := self st; trace := trace st ++ [EvSearch q n n] |})
    as [[out|e] st1] eqn:Hloop; [|discriminate].
  pose proof (for_url_in_returns _ _ _ _ _ _ _ Hloop)
    as (fetched0 & Hout0 & _ & _ & _ & _ & Hbound).
  apply for_url_in_run in Hloop
    as (fetched & Hrun & Hout & Hurls & Hstop & Hwhy).
  simpl in Hout, Hstop. subst out.
  assert (Hlen : len (successes fetched) <= Z.max 0 n).
  { apply Hbound. unfold len. simpl. lia. }
  intros [= <- <-]. exists fetched.
  rewrite slice_to_all by exact Hlen.
  repeat split; auto.
Qed.

(** Five candidates of which the second and the fourth time out when
    asked again, with two documents asked for: the first three are
    fetched, the second is left out, the last two are never requested. *)
Lemma query_local_run_witness :
  exists resp st',
    _query_local_search_server Samples.env_flaky (lit "q") 2 Samples.st0
    = (Return resp, st')
    /\ trace st'
       = [EvSearch (lit "q") 2 2;
          EvGet (lit "u1"); EvGet (lit "u1");
          EvGet (lit "u2"); EvGet (lit "u2");
          EvGet (lit "u3"); EvGet (lit "u3")]
    /\ exists fetched,
         fetches Samples.env_flaky
           {| self := self Samples.st0;
              trace := trace Samples.st0 ++ [EvSearch (lit "q") 2 2] |}
           fetched st'
         /\ resp = PList (successes fetched)
         /\ len (successes fetched) <= Z.max 0 2.
Proof.
  eexists. eexists. split; [reflexivity|]. split; [reflexivity|].
  destruct (query_local_run Samples.env_flaky (lit "q") 2 Samples.st0 _ _
              eq_refl)
    as (fetched & Hrun & Hresp & _ & _ & _ & Hlen).
  exists fetched. auto.
Defined.

(* ===================================================================== *)
(** ** The documents (C6, C10) *)
(* ===================================================================== *)

(** C6 fails on the code for the mock: the [content] of its documents is
    one string, [content 0 for query "q"], where [create_content_dict]
    declares a list and the search engine retriever passes the list of
    sentences. *)
Lemma C6_mock_content_is_one_string :
  SearchEngineRetrieverMock.retrieve (PStr (lit "skip")) [lit "q"] 1
  = [PList
       [PDict
          [(CONTENT,
            PStr (lit "content 0 for query " ++ [dquote] ++ lit "q" ++ [dquote]));
           (lit "url", PStr (lit "url_0"));
           (lit "title", PStr (lit "title_0"))]]]
  /\ ~ well_formed_document
         (SearchEngineRetrieverMock.mock_doc (lit "q") 0).
Proof.
  split; [reflexivity|].
  intros (d & sentences & Hd & Hcontent & _).
  injection Hd as <-. destruct sentences; discriminate.
Qed.

Lemma sentences_of_trimmed (text : pystr) :
  Forall (fun s => s <> [] /\ trimmed s) (sentences_of text).
Proof.
  unfold sentences_of. apply Forall_map.
  apply Forall_forall. intros s Hs. apply filter_In in Hs as [_ Hs].
  apply andb_true_iff in Hs as [_ Hs]. split.
  - intros H. rewrite H in Hs. discriminate.
  - apply strip_trimmed.
Qed.

Lemma document_of_well_formed (rd doc : pyval) :
  document_of rd = Return doc -> well_formed_document doc.
Proof.
  destruct rd as [| | | | |d]; try discriminate. simpl.
  destruct (dict_lookup d CONTENT) as [[| | |text| |]|]; try discriminate.
  intros [= <-]. eexists. exists (sentences_of text).
  split; [reflexivity|]. split; [reflexivity|apply sentences_of_trimmed].
Qed.

Lemma for_rd_in_well_formed (items : list pyval) :
  forall acc docs,
    Forall well_formed_document acc ->
    for_rd_in items acc = Return docs ->
    Forall well_formed_document docs.
Proof.
  induction items as [|rd items IH]; intros acc docs Hacc; simpl.
  - now intros [= <-].
  - destruct (document_of rd) as [doc|e] eqn:Hdoc; [|discriminate].
    apply IH. apply Forall_app. split; [exact Hacc|].
    constructor; [|constructor]. eapply document_of_well_formed; eassumption.
Qed.

(** Every document the search engine retriever returns has a [content]
    that is a list of non-empty, trimmed strings. *)
Theorem retrieve_single_documents_well_formed (env : Env) (q : pystr)
  (num_ret : Z) (st st' : State) (docs : list pyval) :
  _retrieve_single env q num_ret st = (Return (PList docs), st') ->
  Forall well_formed_document docs.
Proof.
  destruct (str_eq_val q (skip_query_token (self st))) eqn:Hq.
  - rewrite retrieve_single_skip by assumption. discriminate.
  - rewrite retrieve_single_local by assumption. unfold bind, lift.
    destruct (_query_local_search_server env q num_ret (with_use_local true st))
      as [[resp|e] st1]; [|discriminate].
    unfold assemble.
    destruct (truthy resp); simpl negb; cbv iota.
    + destruct (iter resp) as [items|e]; [|discriminate].
      destruct (for_rd_in items []) as [out|e] eqn:Hloop; [|discriminate].
      intros [= <- _]. eapply for_rd_in_well_formed; [|exact Hloop].
      constructor.
    + intros [= <- _]. constructor.
Qed.

(** The sentences of a page with blank lines and padded lines. *)
Lemma retrieve_single_documents_well_formed_witness :
  exists docs st',
    _retrieve_single Samples.env_up (lit "q") 2 Samples.st0
    = (Return (PList docs), st')
    /\ List.length docs = 2%nat
    /\ Forall well_formed_document docs.
Proof.
  eexists. eexists. split; [vm_compute; reflexivity|]. split; [reflexivity|].
  exact (retrieve_single_documents_well_formed Samples.env_up (lit "q") 2
           Samples.st0 _ _ eq_refl).
Defined.




(* ===================================================================== *)
(** ** Two more properties *)
(* ===================================================================== *)







(** For a query that is not the skip token the mock returns [num_ret]
    documents (none when [num_ret] is negative), and the same list every
    time. *)
Theorem mock_returns_num_ret_documents (token : pyval) (q : pystr)
  (num_ret : Z) :
  str_eq_val q token = false ->
  exists docs,
    SearchEngineRetrieverMock.mock_docs token q num_ret = PList docs
    /\ len docs = Z.max 0 num_ret
    /\ forall i, 0 <= i < num_ret ->
         nth_error docs (Z.to_nat i)
         = Some (SearchEngineRetrieverMock.mock_doc q i).
Proof.
  intros Hq. unfold SearchEngineRetrieverMock.mock_docs. rewrite Hq.
  eexists. split; [reflexivity|]. split.
  - unfold len, range. rewrite !length_map, length_seq. lia.
  - intros i Hi. unfold range. rewrite !nth_error_map.
    rewrite nth_error_seq.
    replace (Z.to_nat i <? Z.to_nat num_ret)%nat with true
      by (symmetry; apply Nat.ltb_lt; lia).
    simpl. now rewrite Z2Nat.id by lia.
Qed.

(** Three documents for the query ["q"]. *)
Lemma mock_returns_num_ret_documents_witness :
  exists docs,
    SearchEngineRetrieverMock.mock_docs (PStr (lit "skip")) (lit "q") 3
    = PList docs
    /\ len docs = 3.
Proof.
  destruct (mock_returns_num_ret_documents (PStr (lit "skip")) (lit "q") 3
              eq_refl) as (docs & Hdocs & Hlen & _).
  exists docs. split; [exact Hdocs|exact Hlen].
Defined.





(* ===================================================================== *)
(** ** The validated address and the constructor *)
(* ===================================================================== *)

Lemma startswith_app (prefix s : pystr) : startswith (prefix ++ s) prefix = true.
Proof.
  induction prefix as [|c prefix IH]; simpl.
  - now destruct s.
  - now rewrite Z.eqb_refl, IH.
Qed.

Lemma validate_server_cases (address : pystr) (st : State) :
  address <> [] ->
  _validate_server (Some address) st
  = if startswith address (lit "local_google")
    then (Return address, with_use_local true st)
    else if startswith address (lit "http://")
            || startswith address (lit "https://")
         then (Return address, st)
         else (Return (lit "http://" ++ address), st).
Proof.
  intros Ha. unfold _validate_server.
  destruct address as [|c address]; [congruence|].
  change (negb (truthy (PStr (c :: address)))) with false. cbv iota.
  destruct (startswith (c :: address) (lit "local_google")); [reflexivity|].
  destruct (startswith (c :: address) (lit "http://")
            || startswith (c :: address) (lit "https://")); reflexivity.
Qed.

(** What [_validate_server] returns is a normal form: it starts with
    [local_google], [http://] or [https://], validating it again returns it
    unchanged, and the validation sends nothing and keeps the token. *)
Theorem validate_server_normal_form (address : option pystr) (a : pystr)
  (st : State) :
  fst (_validate_server address st) = Return a ->
  (startswith a (lit "local_google") = true
   \/ startswith a (lit "http://") = true
   \/ startswith a (lit "https://") = true)
  /\ (forall st', fst (_validate_server (Some a) st') = Return a)
  /\ trace (snd (_validate_server address st)) = trace st
  /\ skip_query_token (self (snd (_validate_server address st)))
     = skip_query_token (self st).
Proof.
  destruct address as [address|]; [|discriminate].
  destruct address as [|c address]; [discriminate|].
  set (full := c :: address).
  assert (Hfull : full <> []) by discriminate.
  rewrite (validate_server_cases full st Hfull).
  destruct (startswith full (lit "local_google")) eqn:Hlocal.
  - intros [= <-]. repeat split; auto.
    intros st'. rewrite (validate_server_cases full st' Hfull).
    now rewrite Hlocal.
  - destruct (startswith full (lit "http://")
              || startswith full (lit "https://")) eqn:Hhttp.
    + intros [= <-]. repeat split; auto.
      * apply orb_true_iff in Hhttp. tauto.
      * intros st'. rewrite (validate_server_cases full st' Hfull).
        now rewrite Hlocal, Hhttp.
    + intros [= <-]. split; [|split; [|split; reflexivity]].
      * right. left. exact (startswith_app (lit "http://") full).
      * intros st'. reflexivity.
Qed.

(** The address [example.com/search] and its normal form. *)
Lemma validate_server_normal_form_witness :
  (startswith (lit "http://example.com/search") (lit "local_google") = true
   \/ startswith (lit "http://example.com/search") (lit "http://") = true
   \/ startswith (lit "http://example.com/search") (lit "https://") = true)
  /\ fst (_validate_server (Some (lit "http://example.com/search")) Samples.st0)
     = Return (lit "http://example.com/search").
Proof.
  destruct (validate_server_normal_form (Some (lit "example.com/search"))
              (lit "http://example.com/search") Samples.st0 eq_refl)
    as (Hprefix & Hagain & _).
  split; [exact Hprefix|exact (Hagain Samples.st0)].
Defined.

(** The constructor reads the skip token first: options without it make
    it raise [KeyError('skip_retrieval_token')], whatever the address is.
    With a token, it succeeds exactly when the validation of the address
    does, raises what the validation raises, and the object it builds
    holds the token, the validated address and a set flag. *)
Theorem new_stores_validated_address (opt : Opt) (st : State) :
  match skip_retrieval_token opt with
  | None => new opt = Raise (KeyError (lit "skip_retrieval_token"))
  | Some token =>
      match fst (_validate_server (search_server opt) st) with
      | Return a =>
          new opt = Return {| skip_query_token := token;
                              server_address := a;
                              use_local := true |}
      | Raise e => new opt = Raise e
      end
  end.
Proof.
  destruct (skip_retrieval_token opt) as [token|] eqn:Htoken;
    [|unfold new, __init__, RetrieverAPI.__init__; rewrite Htoken;
      reflexivity].
  destruct (search_server opt) as [address|] eqn:Hopt;
    [|unfold new, __init__, RetrieverAPI.__init__;
      rewrite Htoken, Hopt; reflexivity].
  destruct address as [|c address];
    [unfold new, __init__, RetrieverAPI.__init__;
     rewrite Htoken, Hopt; reflexivity|].
  assert (Hfull : c :: address <> []) by discriminate.
  remember (c :: address) as full eqn:Efull. clear Efull c address.
  unfold new, __init__, RetrieverAPI.__init__. rewrite Htoken, Hopt.
  unfold bind at 1. unfold bind at 1.
  rewrite !(validate_server_cases full _ Hfull).
  destruct (startswith full (lit "local_google")) eqn:Hlocal.
  - unfold bind, set_server_address, set_use_local, gets, ret. simpl.
    now rewrite Hlocal.
  - destruct (startswith full (lit "http://")
              || startswith full (lit "https://")).
    + unfold bind, set_server_address, set_use_local, gets, ret. simpl.
      now rewrite Hlocal.
    + unfold bind, set_server_address, set_use_local, gets, ret. simpl.
      reflexivity.
Qed.


(* ===================================================================== *)
(** ** The page record and the remote search *)
(* ===================================================================== *)





(** The remote search followed by the assembly of the documents, the
    branch of [_retrieve_single] for a retriever that is not local: it
    sends one [requests.post] to the address of the retriever and nothing
    else; an exception of [requests.post] is its outcome; and a status
    other than 200, or a JSON object with no [response] key or an empty
    one, gives the empty list of documents, not an error. *)
Theorem remote_search_degrades_to_empty (env : Env) (q : pystr) (n : Z)
  (st : State) :
  trace (snd (_query_search_server env q n st))
  = trace st ++ [EvPost (server_address (self st)) q n]
  /\ self (snd (_query_search_server env q n st)) = self st
  /\ match requests_post env (trace st) (server_address (self st)) q n with
     | Raise e => fst (_query_search_server env q n st) = Raise e
     | Return answer =>
         (status_code answer <> 200 ->
          fst (bind (_query_search_server env q n)
                    (fun resp => lift (assemble resp [])) st)
          = Return (PList []))
         /\ (forall d,
               status_code answer = 200 ->
               json answer = Return (PDict d) ->
               truthy (dict_get d (lit "response") PNone) = false ->
               fst (bind (_query_search_server env q n)
                         (fun resp => lift (assemble resp [])) st)
               = Return (PList []))
         /\ (forall d items,
               status_code answer = 200 ->
               json answer = Return (PDict d) ->
               dict_lookup d (lit "response") = Some (PList items) ->
               fst (bind (_query_search_server env q n)
                         (fun resp => lift (assemble resp [])) st)
               = assemble (PList items) [])
     end.
Proof.
  unfold bind at 1 2 3.
  unfold _query_search_server, post, bind, gets, history, record, lift.
  simpl.
  destruct (requests_post env (trace st) (server_address (self st)) q n)
    as [answer|e]; [|repeat split].
  destruct (status_code answer =? 200) eqn:Hstatus.
  - apply Z.eqb_eq in Hstatus.
    destruct (json answer) as [body|e] eqn:Hjson;
      [destruct body|]; simpl; repeat split; try congruence;
      intros d0; intros; try congruence.
    + assert (d0 = d) as -> by congruence. unfold assemble.
      match goal with H : truthy _ = false |- _ => rewrite H end.
      reflexivity.
    + assert (d0 = d) as -> by congruence. unfold dict_get.
      match goal with H : dict_lookup _ _ = Some _ |- _ => rewrite H end.
      reflexivity.
  - apply Z.eqb_neq in Hstatus. simpl. repeat split; try congruence.
Qed.

(** A server that answers 503. *)
Lemma remote_search_degrades_to_empty_witness :
  fst (bind
         (_query_search_server
            {| googlesearch_search := fun _ _ _ _ => GStop;
               requests_get := fun _ _ => Raise ConnectionError;
               requests_post := fun _ _ _ _ =>
                 Return {| status_code := 503;
                           content := [];
                           json := Raise JSONDecodeError |};
               bs4_find_title := fun _ => None;
               html2text_handle := fun s => s |}
            (lit "q") 2)
         (fun resp => lift (assemble resp [])) Samples.st0)
  = Return (PList []).
Proof.
  apply (remote_search_degrades_to_empty
           {| googlesearch_search := fun _ _ _ _ => GStop;
              requests_get := fun _ _ => Raise ConnectionError;
              requests_post := fun _ _ _ _ =>
                Return {| status_code := 503;
                          content := [];
                          json := Raise JSONDecodeError |};
              bs4_find_title := fun _ => None;
              html2text_handle := fun s => s |}
           (lit "q") 2 Samples.st0).
  discriminate.
Defined.

(* ===================================================================== *)
(** ** The sentences of a page *)
(* ===================================================================== *)

Lemma split_nonempty (sep : Z) (s : pystr) : split sep s <> [].
Proof.
  induction s as [|c s IH]; simpl; [discriminate|].
  destruct (c =? sep); [discriminate|].
  destruct (split sep s); discriminate.
Qed.

(** Splitting distributes over a separator. *)
Lemma split_app (sep : Z) (a b : pystr) :
  split sep (a ++ sep :: b) = split sep a ++ split sep b.
Proof.
  induction a as [|c a IH]; simpl.
  - now rewrite Z.eqb_refl.
  - destruct (c =? sep); [now rewrite IH|].
    rewrite IH. pose proof (split_nonempty sep a) as Hne.
    destruct (split sep a) as [|w ws]; [congruence|reflexivity].
Qed.

Lemma split_pieces (sep : Z) (s : pystr) :
  Forall (fun w => ~ In sep w /\ forall c, In c w -> In c s) (split sep s).
Proof.
  induction s as [|c s IH]; simpl.
  - constructor; [|constructor]. split; auto.
  - destruct (c =? sep) eqn:Hc.
    + constructor.
      * split; [auto|]. intros x [].
      * eapply Forall_impl; [|exact IH]. intros w [H1 H2]. split; auto.
    + apply Z.eqb_neq in Hc. pose proof (split_nonempty sep s) as Hne.
      destruct (split sep s) as [|w ws]; [congruence|].
      inversion IH as [|? ? [Hw1 Hw2] Hws]; subst. constructor.
      * split.
        -- intros [H|H]; [congruence|auto].
        -- intros x [<-|H]; [now left|right; auto].
      * eapply Forall_impl; [|exact Hws]. intros w' [H1 H2]. split; auto.
Qed.

Lemma strip_incl (s : pystr) (c : Z) : In c (strip s) -> In c s.
Proof.
  unfold strip. intros H.
  destruct (rstrip_prefix (lstrip s)) as [q Hq].
  destruct (lstrip_suffix s) as [p Hp].
  rewrite Hp, Hq. apply in_or_app. right. apply in_or_app. now left.
Qed.

Lemma lstrip_blank (s : pystr) :
  Forall (fun c => isspace c = true) s -> lstrip s = [].
Proof.
  induction 1 as [|c s Hc _ IH]; simpl; [reflexivity|]. now rewrite Hc.
Qed.

Lemma filter_none {A : Type} (f : A -> bool) (l : list A) :
  (forall x, In x l -> f x = false) -> filter f l = [].
Proof.
  induction l as [|x l IH]; intros H; simpl; [reflexivity|].
  rewrite (H x (or_introl eq_refl)). apply IH. intros y Hy. apply H. now right.
Qed.

(** The sentences of a text are taken line by line: the sentences of two
    texts joined by a line feed are those of the first followed by those
    of the second. *)
Theorem sentences_of_lines (a b : pystr) :
  sentences_of (a ++ LF :: b) = sentences_of a ++ sentences_of b.
Proof.
  unfold sentences_of. now rewrite split_app, filter_app, map_app.
Qed.

(** No sentence holds a line feed, every character of a sentence is a
    character of the text, and a text of whitespace only has no sentence
    at all. *)
Theorem sentences_of_single_lines (text : pystr) :
  Forall (fun s => ~ In LF s /\ forall c, In c s -> In c text)
         (sentences_of text)
  /\ (Forall (fun c => isspace c = true) text -> sentences_of text = []).
Proof.
  split.
  - unfold sentences_of. apply Forall_map.
    apply Forall_forall. intros w Hw. apply filter_In in Hw as [Hw _].
    pose proof (split_pieces LF text) as Hall.
    rewrite Forall_forall in Hall. destruct (Hall w Hw) as [Hsep Hin].
    split.
    + intros H. apply Hsep. now apply strip_incl.
    + intros c Hc. apply Hin. now apply strip_incl.
  - intros Hblank. unfold sentences_of.
    rewrite filter_none; [reflexivity|].
    intros w Hw. pose proof (split_pieces LF text) as Hall.
    rewrite Forall_forall in Hall. destruct (Hall w Hw) as [_ Hin].
    assert (Hw_blank : Forall (fun c => isspace c = true) w).
    { apply Forall_forall. intros c Hc.
      rewrite Forall_forall in Hblank. auto. }
    unfold strip. rewrite (lstrip_blank w Hw_blank).
    apply andb_false_r.
Qed.

(** A text of blank lines only. *)
Lemma sentences_of_single_lines_witness :
  sentences_of [32; LF; 9; 32; LF] = [].
Proof.
  apply (proj2 (sentences_of_single_lines [32; LF; 9; 32; LF])).
  repeat constructor.
Defined.

(* ===================================================================== *)
(** ** Batches *)
(* ===================================================================== *)

(** A batch in two parts is the first part, then the second part from the
    state the first left, with the two lists of results joined; an
    exception of either part is the exception of the batch. *)
Theorem retrieve_app (env : Env) (n : Z) (first second : list pystr)
  (st : State) :
  retrieve env (first ++ second) n st
  = match retrieve env first n st with
    | (Return res1, st1) =>
        match retrieve env second n st1 with
        | (Return res2, st2) => (Return (res1 ++ res2), st2)
        | (Raise e, st2) => (Raise e, st2)
        end
    | (Raise e, st1) => (Raise e, st1)
    end.
Proof.
  revert st. induction first as [|q first IH]; intros st.
  - simpl app. change (retrieve env [] n st) with (Return (@nil pyval), st).
    cbv iota beta.
    destruct (retrieve env second n st) as [[res2|e] st2]; reflexivity.
  - simpl app. rewrite !retrieve_cons.
    destruct (_retrieve_single env q n st) as [[docs|e] st0]; [|reflexivity].
    rewrite IH.
    destruct (retrieve env first n st0) as [[res1|e] st1]; [|reflexivity].
    destruct (retrieve env second n st1) as [[res2|e] st2]; reflexivity.
Qed.

Lemma gets_of_no_search (fetched : list (pystr * pyval)) :
  filter is_search (gets_of fetched) = []
  /\ filter is_post (gets_of fetched) = [].
Proof.
  unfold gets_of. induction fetched as [|p fetched [IH1 IH2]]; simpl; auto.
Qed.

(** The trace of a query that was answered. *)
Lemma retrieve_single_returns_trace (env : Env) (q : pystr) (n : Z)
  (st st' : State) (r : pyval) :
  str_eq_val q (skip_query_token (self st)) = false ->
  _retrieve_single env q n st = (Return r, st') ->
  exists fetched,
    trace st' = trace st ++ EvSearch q n n :: gets_of fetched.
Proof.
  intros Hq. rewrite retrieve_single_local by assumption. unfold bind, lift.
  rewrite query_local_unfold. simpl trace.
  destruct (for_url_in env n (googlesearch_search env (trace st) q n n) []
              {| self := self (with_use_local true st);
                 trace := trace st ++ [EvSearch q n n] |})
    as [[out|e] st1] eqn:Hloop; [|discriminate].
  apply for_url_in_returns in Hloop as (fetched & _ & Htr & _).
  intros [= _ <-]. exists fetched. rewrite Htr. simpl.
  now rewrite <- app_assoc.
Qed.

(** A batch that is answered has asked the provider once for every query
    that is not the skip token, in the order of the batch, and has sent no
    [requests.post]. *)
Theorem retrieve_one_lookup_per_query (env : Env) (n : Z)
  (queries : list pystr) :
  forall st st' res,
    retrieve env queries n st = (Return res, st') ->
    exists evs,
      trace st' = trace st ++ evs
      /\ filter is_search evs
         = map (fun q => EvSearch q n n)
             (filter (fun q => negb (str_eq_val q (skip_query_token (self st))))
                     queries)
      /\ filter is_post evs = [].
Proof.
  induction queries as [|q queries IH]; intros st st' res H.
  - injection H as _ <-. exists []. now rewrite app_nil_r.
  - apply retrieve_cons_inv in H as (docs & rest & st1 & Hq & Hrest & _).
    assert (Htoken : skip_query_token (self st1) = skip_query_token (self st)).
    { pose proof (frame_retrieve_single env q n st) as Hf.
      rewrite Hq in Hf. now destruct Hf as (Hf & _). }
    apply IH in Hrest as (evs & Htr & Hsearch & Hpost).
    rewrite Htoken in Hsearch. simpl filter.
    destruct (str_eq_val q (skip_query_token (self st))) eqn:Hskip; simpl negb.
    + rewrite retrieve_single_skip in Hq by assumption.
      injection Hq as _ <-. now exists evs.
    + apply retrieve_single_returns_trace in Hq as (fetched & Hq);
        [|assumption].
      destruct (gets_of_no_search fetched) as [Hs Hp].
      exists (EvSearch q n n :: gets_of fetched ++ evs). repeat split.
      * rewrite Htr, Hq, <- app_assoc. reflexivity.
      * simpl. now rewrite filter_app, Hs, Hsearch.
      * simpl. now rewrite filter_app, Hp, Hpost.
Qed.

(** One lookup for the batch [["skip", "q"]]. *)
Lemma retrieve_one_lookup_per_query_witness :
  exists evs,
    trace (snd (retrieve Samples.env_up [lit "skip"; lit "q"] 2 Samples.st0))
    = trace Samples.st0 ++ evs
    /\ filter is_search evs = [EvSearch (lit "q") 2 2]
    /\ filter is_post evs = [].
Proof.
  exact (retrieve_one_lookup_per_query Samples.env_up 2 [lit "skip"; lit "q"]
           Samples.st0 _ _ eq_refl).
Defined.

(* ===================================================================== *)
(** ** Document records *)
(* ===================================================================== *)









Lemma document_of_fields (rd doc : pyval) :
  document_of rd = Return doc ->
  doc_field (lit "url") doc = item_field (lit "url") rd
  /\ doc_field (lit "title") doc = item_field (lit "title") rd.
Proof.
  destruct rd as [| | | | |d]; try discriminate. simpl.
  destruct (dict_lookup d CONTENT) as [[| | |text| |]|]; try discriminate.
  intros [= <-]. split; reflexivity.
Qed.

Lemma for_rd_in_fields (items : list pyval) :
  forall acc docs,
    for_rd_in items acc = Return docs ->
    exists made,
      docs = acc ++ made
      /\ List.length made = List.length items
      /\ map (doc_field (lit "url")) made = map (item_field (lit "url")) items
      /\ map (doc_field (lit "title")) made
         = map (item_field (lit "title")) items.
Proof.
  induction items as [|rd items IH]; intros acc docs; simpl.
  - intros [= <-]. exists []. now rewrite app_nil_r.
  - destruct (document_of rd) as [doc|e] eqn:Hdoc; [|discriminate].
    intros Hrest. apply IH in Hrest as (made & -> & Hlen & Hurl & Htitle).
    apply document_of_fields in Hdoc as [Hu Ht].
    exists (doc :: made). rewrite <- app_assoc. simpl.
    repeat split; congruence.
Qed.

(** When the assembly of a list of items returns, it has made one
    document per item, in the order of the items, each with the [url] and
    the [title] of its item, the empty string where the item has none. *)
Theorem assemble_one_document_per_item (items docs : list pyval) :
  assemble (PList items) [] = Return (PList docs) ->
  List.length docs = List.length items
  /\ map (doc_field (lit "url")) docs = map (item_field (lit "url")) items
  /\ map (doc_field (lit "title")) docs
     = map (item_field (lit "title")) items.
Proof.
  unfold assemble. destruct items as [|rd items].
  - simpl. intros [= <-]. repeat split.
  - cbn [truthy negb iter].
    destruct (for_rd_in (rd :: items) []) as [out|e] eqn:Hloop; [|discriminate].
    intros [= <-].
    apply for_rd_in_fields in Hloop as (made & -> & Hlen & Hurl & Htitle).
    simpl app. auto.
Qed.

(** An item without [title] between two complete ones. *)
Lemma assemble_one_document_per_item_witness :
  exists docs,
    assemble
      (PList [PDict [(lit "url", PStr (lit "a")); (CONTENT, PStr (lit "x"))];
              PDict [(CONTENT, PStr (lit "y"))]])
      []
    = Return (PList docs)
    /\ map (doc_field (lit "url")) docs
       = [Some (PStr (lit "a")); Some (PStr [])].
Proof.
  eexists. split; [vm_compute; reflexivity|].
  exact (proj1 (proj2
    (assemble_one_document_per_item
       [PDict [(lit "url", PStr (lit "a")); (CONTENT, PStr (lit "x"))];
        PDict [(CONTENT, PStr (lit "y"))]]
       _ eq_refl))).
Defined.

(* ===================================================================== *)
(** ** How many documents *)
(* ===================================================================== *)

(** With a count that is zero or negative the local search fetches no
    page: it asks the provider, and returns the empty list unless the
    provider raises at once. *)
Theorem query_local_nonpositive_count (env : Env) (q : pystr) (n : Z)
  (st : State) :
  n <= 0 ->
  trace (snd (_query_local_search_server env q n st))
  = trace st ++ [EvSearch q n n]
  /\ fst (_query_local_search_server env q n st)
     = match googlesearch_search env (trace st) q n n with
       | GRaise e => Raise e
       | GStop | GYield _ _ => Return (PList [])
       end.
Proof.
  intros Hn. rewrite query_local_unfold.
  assert (Hslice : slice_to n (@nil pyval) = []).
  { unfold slice_to. destruct (0 <=? n); apply firstn_nil. }
  destruct (googlesearch_search env (trace st) q n n) as [|e|url rest]; simpl.
  - rewrite Hslice. split; reflexivity.
  - split; reflexivity.
  - replace (len (@nil pyval) >=? n) with true
      by (symmetry; apply Z.geb_le; unfold len; simpl; lia).
    simpl. rewrite Hslice. split; reflexivity.
Qed.

(** A negative count in a world where every page is there. *)
Lemma query_local_nonpositive_count_witness :
  trace (snd (_query_local_search_server Samples.env_up (lit "q") (-3)
                Samples.st0))
  = trace Samples.st0 ++ [EvSearch (lit "q") (-3) (-3)]
  /\ fst (_query_local_search_server Samples.env_up (lit "q") (-3) Samples.st0)
     = Return (PList []).
Proof.
  apply (query_local_nonpositive_count Samples.env_up (lit "q") (-3)
           Samples.st0).
  lia.
Defined.






(* ===================================================================== *)
(** ** The documents of the mock *)
(* ===================================================================== *)

Lemma lit_inj (s s' : string) : lit s = lit s' -> s = s'.
Proof.
  unfold lit. intros H.
  rewrite <- (string_of_list_ascii_of_string s),
          <- (string_of_list_ascii_of_string s').
  f_equal. revert H.
  generalize (list_ascii_of_string s) (list_ascii_of_string s').
  induction l as [|a l IH]; intros [|a' l']; simpl; try discriminate.
  - reflexivity.
  - intros [= Ha Hl]. apply N2Z.inj in Ha.
    rewrite <- (ascii_N_embedding a), <- (ascii_N_embedding a'), Ha.
    f_equal. now apply IH.
Qed.

(** [str(n)] tells the integers apart. *)
Lemma str_of_int_inj (n m : Z) : str_of_int n = str_of_int m -> n = m.
Proof.
  unfold str_of_int. intros H. apply lit_inj in H.
  assert (Hnonnil : forall z, Z.to_int z <> Decimal.Pos Decimal.Nil
                              /\ Z.to_int z <> Decimal.Neg Decimal.Nil).
  { intros [|p|p]; simpl; split; try discriminate;
      intros [= Hp]; now apply (Unsigned.to_uint_nonnil p). }
  apply DecimalZ.to_int_inj.
  pose proof (NilZero.isi (Z.to_int n) (proj1 (Hnonnil n)) (proj2 (Hnonnil n)))
    as Hn.
  pose proof (NilZero.isi (Z.to_int m) (proj1 (Hnonnil m)) (proj2 (Hnonnil m)))
    as Hm.
  rewrite H in Hn. congruence.
Qed.

(** A document of the mock names its index and its query: its [url] and
    [title] are [url_] and [title_] followed by the index, and two
    documents are the same only for the same query and the same index. *)
Theorem mock_doc_identifies_query_and_index (q q' : pystr) (i j : Z) :
  doc_field (lit "url") (SearchEngineRetrieverMock.mock_doc q i)
  = Some (PStr (lit "url_" ++ str_of_int i))
  /\ doc_field (lit "title") (SearchEngineRetrieverMock.mock_doc q i)
     = Some (PStr (lit "title_" ++ str_of_int i))
  /\ (SearchEngineRetrieverMock.mock_doc q i
      = SearchEngineRetrieverMock.mock_doc q' j ->
      i = j /\ q = q').
Proof.
  split; [reflexivity|]. split; [reflexivity|].
  intros H.
  assert (Hurl : doc_field (lit "url") (SearchEngineRetrieverMock.mock_doc q i)
                 = doc_field (lit "url")
                     (SearchEngineRetrieverMock.mock_doc q' j))
    by now rewrite H.
  assert (Hcontent :
            doc_field CONTENT (SearchEngineRetrieverMock.mock_doc q i)
            = doc_field CONTENT (SearchEngineRetrieverMock.mock_doc q' j))
    by now rewrite H.
  change (Some (PStr (lit "url_" ++ str_of_int i))
          = Some (PStr (lit "url_" ++ str_of_int j))) in Hurl.
  change (Some (PStr (lit "content " ++ str_of_int i ++ lit " for query "
                      ++ [dquote] ++ q ++ [dquote]))
          = Some (PStr (lit "content " ++ str_of_int j ++ lit " for query "
                        ++ [dquote] ++ q' ++ [dquote]))) in Hcontent.
  injection Hurl as Hurl.
  apply str_of_int_inj in Hurl. subst j. split; [reflexivity|].
  injection Hcontent as Hcontent.
  apply app_inv_head in Hcontent. injection Hcontent as Hcontent.
  now apply app_inv_tail in Hcontent.
Qed.

(** Two documents of one query differ. *)
Lemma mock_doc_identifies_query_and_index_witness :
  SearchEngineRetrieverMock.mock_doc (lit "q") 0
  <> SearchEngineRetrieverMock.mock_doc (lit "q") 1.
Proof.
  intros H.
  destruct (proj2 (proj2
    (mock_doc_identifies_query_and_index (lit "q") (lit "q") 0 1)) H)
    as [Hindex _].
  discriminate Hindex.
Defined.

(* ===================================================================== *)
(** ** The decoded text *)
(* ===================================================================== *)

Ltac booleans :=
  repeat match goal with
  | H : _ || _ = false |- _ => apply orb_false_iff in H; destruct H
  | H : negb _ = false |- _ => apply negb_false_iff in H
  | H : _ && _ = true |- _ => apply andb_true_iff in H; destruct H
  | H : (if ?b then _ else _) = false |- _ => destruct b eqn:?
  | H : (_ <? _) = true |- _ => apply Z.ltb_lt in H
  | H : (_ <? _) = false |- _ => apply Z.ltb_ge in H
  | H : (_ <=? _) = true |- _ => apply Z.leb_le in H
  | H : (_ <=? _) = false |- _ => apply Z.leb_gt in H
  | H : (_ =? _) = true |- _ => apply Z.eqb_eq in H
  | H : (_ =? _) = false |- _ => apply Z.eqb_neq in H
  end.

Ltac code_point :=
  match goal with
  | |- Char ?e _ = Char ?cp _ -> _ =>
      let Heq := fresh in
      intros Heq; assert (cp = e) as -> by congruence; clear Heq
  end.

Ltac shifts :=
  rewrite !Z.shiftl_mul_pow2 by lia;
  change (2 ^ 6) with 64; change (2 ^ 12) with 4096;
  change (2 ^ 18) with 262144; lia.

Lemma utf8_decode_one_scalar (s : list Z) (cp : Z) (n : nat) :
  Forall (fun c => 0 <= c < 256) s ->
  utf8_decode_one s = Char cp n ->
  is_scalar cp.
Proof.
  intros Hbytes. unfold utf8_decode_one, is_continuation, is_scalar.
  destruct s as [|ch t1]; [discriminate|].
  inversion Hbytes as [|? ? Hch H1]; subst.
  destruct (ch <? 128) eqn:?; [code_point; booleans; lia|].
  destruct (ch <? 224) eqn:?.
  { destruct (ch <? 194) eqn:?; [discriminate|].
    destruct t1 as [|ch2 t2]; [discriminate|].
    inversion H1 as [|? ? Hch2 H2]; subst.
    destruct (negb ((128 <=? ch2) && (ch2 <? 192))) eqn:?; [discriminate|].
    code_point. booleans; shifts. }
  destruct (ch <? 240) eqn:?.
  { destruct t1 as [|ch2 t2]; [discriminate|].
    inversion H1 as [|? ? Hch2 H2]; subst.
    destruct (negb ((128 <=? ch2) && (ch2 <? 192))
              || (if ch2 <? 160 then ch =? 224 else ch =? 237)) eqn:?;
      [discriminate|].
    destruct t2 as [|ch3 t3]; [discriminate|].
    inversion H2 as [|? ? Hch3 H3]; subst.
    destruct (negb ((128 <=? ch3) && (ch3 <? 192))) eqn:?; [discriminate|].
    code_point. booleans; shifts. }
  destruct (ch <? 245) eqn:?; [|discriminate].
  destruct t1 as [|ch2 t2]; [discriminate|].
  inversion H1 as [|? ? Hch2 H2]; subst.
  destruct (negb ((128 <=? ch2) && (ch2 <? 192))
            || (if ch2 <? 144 then ch =? 240 else ch =? 244)) eqn:?;
    [discriminate|].
  destruct t2 as [|ch3 t3]; [discriminate|].
  inversion H2 as [|? ? Hch3 H3]; subst.
  destruct (negb ((128 <=? ch3) && (ch3 <? 192))) eqn:?; [discriminate|].
  destruct t3 as [|ch4 t4]; [discriminate|].
  inversion H3 as [|? ? Hch4 H4]; subst.
  destruct (negb ((128 <=? ch4) && (ch4 <? 192))) eqn:?; [discriminate|].
  code_point. booleans; shifts.
Qed.

Lemma decode_from_ignore_text (s : list Z) :
  Forall (fun c => 0 <= c < 256) s ->
  forall pending out,
    decode_from Ignore pending s = Return out ->
    (List.length out <= List.length s)%nat /\ Forall is_scalar out.
Proof.
  induction 1 as [|c t Hc Ht IH]; intros pending out.
  - simpl. intros [= <-]. split; [simpl; lia|constructor].
  - destruct pending as [|k].
    + rewrite decode_from_start.
      destruct (utf8_decode_one (c :: t)) as [cp n|n] eqn:Hone.
      * destruct (decode_from Ignore (pred n) t) as [rest|e] eqn:Hrest;
          [|discriminate].
        intros [= <-]. destruct (IH _ _ Hrest) as [Hlen Hall].
        split; [simpl; lia|]. constructor; [|exact Hall].
        eapply utf8_decode_one_scalar; [|exact Hone]. now constructor.
      * intros Hrest. destruct (IH _ _ Hrest) as [Hlen Hall].
        split; [simpl; lia|exact Hall].
    + rewrite decode_from_pending. intros Hrest.
      destruct (IH _ _ Hrest) as [Hlen Hall]. split; [simpl; lia|exact Hall].
Qed.

Lemma decode_from_ascii (errors : errors_mode) (s : list Z) :
  Forall (fun c => c < 128) s -> decode_from errors 0 s = Return s.
Proof.
  induction 1 as [|c t Hc _ IH]; [reflexivity|].
  rewrite decode_from_start.
  replace (utf8_decode_one (c :: t)) with (Char c 1).
  - simpl pred. now rewrite IH.
  - unfold utf8_decode_one.
    now replace (c <? 128) with true by (symmetry; apply Z.ltb_lt; lia).
Qed.

Lemma byte_val_range (page : list byte) :
  Forall (fun c => 0 <= c < 256) (map byte_val page).
Proof.
  apply Forall_map, Forall_forall. intros b _. unfold byte_val.
  pose proof (Byte.to_N_bounded b). lia.
Qed.

(** The text of a page has no more characters than the page has bytes,
    and every one of them is a Unicode scalar value: no surrogate and
    nothing above U+10FFFF comes out of the decoding; and a page of ASCII
    bytes decodes to these very characters. *)
Theorem decode_page_text (page : list byte) :
  (exists text,
     decode_page page = Return text
     /\ len text <= len page
     /\ Forall is_scalar text)
  /\ (Forall (fun b => byte_val b < 128) page ->
      decode_page page = Return (map byte_val page)).
Proof.
  unfold decode_page, bytes_decode. split.
  - destruct (bytes_decode_ignore_total page) as [text Htext].
    unfold bytes_decode in Htext. exists text. split; [exact Htext|].
    destruct (decode_from_ignore_text _ (byte_val_range page) _ _ Htext)
      as [Hlen Hall].
    rewrite length_map in Hlen. unfold len. split; [lia|exact Hall].
  - intros Hascii. apply decode_from_ascii. now apply Forall_map.
Qed.

(** The page [b"hi"]. *)
Lemma decode_page_text_witness :
  decode_page [x68; x69] = Return [104; 105].
Proof.
  apply (proj2 (decode_page_text [x68; x69])).
  repeat constructor.
Defined.

(* ===================================================================== *)
(** ** The shape of a batch of results *)
(* ===================================================================== *)

Lemma assemble_returns_list (resp r : pyval) (acc : list pyval) :
  assemble resp acc = Return r -> exists docs, r = PList docs.
Proof.
  unfold assemble. destruct (negb (truthy resp)).
  - intros [= <-]. eauto.
  - destruct (iter resp) as [items|e]; [|discriminate].
    destruct (for_rd_in items acc) as [docs|e]; [|discriminate].
    intros [= <-]. eauto.
Qed.

Lemma retrieve_single_shape (env : Env) (q : pystr) (n : Z) (st st' : State)
  (r : pyval) :
  _retrieve_single env q n st = (Return r, st') ->
  if str_eq_val q (skip_query_token (self st)) then r = PNone
  else exists docs, r = PList docs.
Proof.
  destruct (str_eq_val q (skip_query_token (self st))) eqn:Hq.
  - rewrite retrieve_single_skip by assumption. now intros [= <- _].
  - rewrite retrieve_single_local by assumption. unfold bind, lift.
    destruct (_query_local_search_server env q n (with_use_local true st))
      as [[resp|e] st1]; [|discriminate].
    destruct (assemble resp []) as [r0|e] eqn:Hdocs; [|discriminate].
    intros [= <- _]. eapply assemble_returns_list; eassumption.
Qed.

(** In the list either retriever returns, an entry is [None] exactly at
    the positions of the skip token and a list of documents at every other
    position: the mock and the search engine retriever agree on the shape
    of a batch of results. *)
Theorem retrieve_results_shape (env : Env) (n : Z) (queries : list pystr) :
  forall st st' res,
    retrieve env queries n st = (Return res, st') ->
    Forall2 (fun q r =>
               if str_eq_val q (skip_query_token (self st)) then r = PNone
               else exists docs, r = PList docs)
            queries res
    /\ Forall2 (fun q r =>
                  if str_eq_val q (skip_query_token (self st)) then r = PNone
                  else exists docs, r = PList docs)
               queries
               (SearchEngineRetrieverMock.retrieve
                  (skip_query_token (self st)) queries n).
Proof.
  induction queries as [|q queries IH]; intros st st' res H.
  - injection H as <- _. split; constructor.
  - apply retrieve_cons_inv in H as (docs & rest & st1 & Hq & Hrest & ->).
    assert (Htoken : skip_query_token (self st1) = skip_query_token (self st)).
    { pose proof (frame_retrieve_single env q n st) as Hf.
      rewrite Hq in Hf. now destruct Hf as (Hf & _). }
    apply IH in Hrest as [Hreal Hmock]. rewrite Htoken in Hreal, Hmock.
    split; constructor; auto.
    + eapply retrieve_single_shape; eassumption.
    + unfold SearchEngineRetrieverMock.mock_docs.
      destruct (str_eq_val q (skip_query_token (self st))); eauto.
Qed.

(** The batch [["skip", "q"]]. *)
Lemma retrieve_results_shape_witness :
  Forall2 (fun q r =>
             if str_eq_val q (PStr (lit "skip")) then r = PNone
             else exists docs, r = PList docs)
          [lit "skip"; lit "q"]
          (SearchEngineRetrieverMock.retrieve (PStr (lit "skip"))
             [lit "skip"; lit "q"] 2).
Proof.
  exact (proj2 (retrieve_results_shape Samples.env_up 2 [lit "skip"; lit "q"]
                  Samples.st0 _ _ eq_refl)).
Defined.

(** Whatever its outcome, a call of [retrieve] leaves the skip token and
    the server address of the retriever as they were and sends no
    [requests.post]; the only field it may change is [use_local]. *)
Theorem retrieve_keeps_configuration (env : Env) (n : Z)
  (queries : list pystr) (st : State) :
  skip_query_token (self (snd (retrieve env queries n st)))
  = skip_query_token (self st)
  /\ server_address (self (snd (retrieve env queries n st)))
     = server_address (self st)
  /\ exists evs,
       trace (snd (retrieve env queries n st)) = trace st ++ evs
       /\ filter is_post evs = [].
Proof.
  destruct (frame_retrieve env n queries st) as (Htoken & Haddress & evs & Hevs & Hall).
  split; [exact Htoken|]. split; [exact Haddress|].
  exists evs. split; [exact Hevs|].
  apply filter_none. intros ev Hev.
  rewrite Forall_forall in Hall. auto.
Qed.
